(** * Marathon: batch push-notification fan-out

    A shallow embedding of the Go sources of the marathon repository
    ([models/helpers.go], [workers/batch_pg_workers.go], the kafka
    [producer] package, the Zookeeper client of package [extensions] and
    the [worker] utilities exercised by [worker/util_test.go]) together
    with the properties the specification states about them and further
    properties of the same code.

    Conventions.
    - Go's [int] and [int64] are [Z]; where an operation can leave the
      64-bit range the wrap-around is written out ([wrap64]).
    - A Go [(T, error)] result is a [result T].
    - Package-level variables and receiver fields that the code mutates are
      threaded explicitly as state.
    - Calls into libraries that are not part of the repository
      ([database/sql], [encoding/json], sarama, redis, viper, zk) are
      either section variables or small executable models, each
      introduced where it is used. *)

From Stdlib Require Import ZArith List String Ascii Lia Bool Sorted.
From stdpp Require Import gmap strings list pretty sorting.

Open Scope string_scope.
Open Scope list_scope.
Open Scope Z_scope.

(** ** Shared vocabulary *)

(** A Go [(T, error)] pair: either the value (error [nil]) or the error's
    message. *)
Inductive result (A : Type) : Type :=
| Ok (a : A)
| Err (e : string).
Arguments Ok {A} a.
Arguments Err {A} e.

(** Two's complement wrap-around of a 64-bit signed integer. *)
Definition wrap64 (z : Z) : Z := (z + 2 ^ 63) mod 2 ^ 64 - 2 ^ 63.

Definition int64_range (z : Z) : Prop := - 2 ^ 63 <= z < 2 ^ 63.

(** ** [models/helpers.go]: the database handle *)

Module Models.

Section WithSql.

(** [database/sql]'s handle and [sql.Open]. [sql.Open] is library code:
    it validates the driver name and the data source name and returns a
    handle or an error. *)
Variable sqlDB : Type.
Variable sql_Open : string -> string -> result sqlDB.

(** [gorp.DbMap] as [InitDb] builds it: the [sql.DB] plus the tables
    registered with [AddTableWithName]. [DB] is the interface the
    package exposes; its only implementation here is [*gorp.DbMap]. *)
Record DbMap : Type := mkDbMap {
  Db : sqlDB;
  tables : list (string * string)
}.

(** The arguments of [GetDB] and [InitDb], in the source's order. *)
Record conn_args : Type := mkArgs {
  host : string;
  user : string;
  port : Z;
  sslmode : string;
  dbName : string;
  password : string
}.

(** Package state: the variable [_db] ([None] is the nil interface) and,
    as ghost state, the data source names handed to [sql.Open] so far. *)
Record pkg : Type := mkPkg {
  _db : option DbMap;
  opened : list string
}.

Definition connStr (a : conn_args) : string :=
  let s := "host=" +:+ host a +:+ " user=" +:+ user a +:+ " port=" +:+
           pretty (port a) +:+ " sslmode=" +:+ sslmode a +:+ " dbname=" +:+
           dbName a in
  if decide (password a = "") then s else s +:+ " password=" +:+ password a.

(** [InitDb]: build the connection string, open, register the tables. *)
Definition InitDb (a : conn_args) (log : list string)
  : result DbMap * list string :=
  let log' := log ++ [connStr a] in
  match sql_Open "postgres" (connStr a) with
  | Err e => (Err e, log')
  | Ok db =>
      (Ok {| Db := db;
             tables := [("Organization", "organizations"); ("App", "apps")] |},
       log')
  end.

(** [GetDB]: initialise [_db] on first use, then hand it out. *)
Definition GetDB (a : conn_args) (st : pkg) : result DbMap * pkg :=
  match _db st with
  | None =>
      match InitDb a (opened st) with
      | (Err e, log) => (Err e, {| _db := None; opened := log |})
      | (Ok d, log) => (Ok d, {| _db := Some d; opened := log |})
      end
  | Some d => (Ok d, st)
  end.

(** A sequence of [GetDB] calls, results in call order. *)
Fixpoint GetDB_calls (calls : list conn_args) (st : pkg)
  : list (result DbMap) * pkg :=
  match calls with
  | [] => ([], st)
  | a :: rest =>
      let '(r, st1) := GetDB a st in
      let '(rs, st2) := GetDB_calls rest st1 in
      (r :: rs, st2)
  end.

(** [GetTestDB] *)
Definition GetTestDB (st : pkg) : result DbMap * pkg :=
  GetDB (mkArgs "localhost" "marathon_test" 5432 "disable" "marathon_test" "") st.

End WithSql.

Arguments Db {sqlDB} _.
Arguments tables {sqlDB} _.
Arguments _db {sqlDB} _.
Arguments opened {sqlDB} _.
Arguments mkPkg {sqlDB} _ _.
Arguments InitDb {sqlDB} sql_Open a log.
Arguments GetDB {sqlDB} sql_Open a st.
Arguments GetDB_calls {sqlDB} sql_Open calls st.
Arguments GetTestDB {sqlDB} sql_Open st.

(** A [sql.Open] that knows the postgres driver only and hands back the
    data source name as the handle; used to run the definitions. *)
Definition open_postgres (driver dsn : string) : result string :=
  if decide (driver = "postgres") then Ok dsn else Err ("sql: unknown driver " +:+ driver).

Definition production : conn_args :=
  mkArgs "db.internal" "marathon" 5432 "require" "marathon" "s3cret".

Definition staging : conn_args :=
  mkArgs "localhost" "marathon_test" 5433 "disable" "marathon_test" "".

Definition fresh : pkg string := mkPkg None [].

End Models.

(** ** The kafka [producer] package *)

Module Producer.

(** [messages.KafkaMessage]: the two fields [Producer] reads. *)
Record KafkaMessage : Type := mkKafkaMessage {
  Topic : string;
  Message : string
}.

(** [sarama.ProducerMessage] as [Producer] fills it. *)
Record ProducerMessage : Type := mkProducerMessage {
  pm_Topic : string;
  pm_Value : string
}.

#[global] Instance KafkaMessage_eq_dec : EqDecision KafkaMessage.
Proof. solve_decision. Defined.

#[global] Instance ProducerMessage_eq_dec : EqDecision ProducerMessage.
Proof. solve_decision. Defined.

(** What one pass through the [select] picks: the done signal, or a
    pointer received from [inChan] ([None] is the nil pointer a closed
    channel yields). *)
Inductive selected : Type :=
| DoneSignal
| Received (msg : option KafkaMessage).

(** The message [Producer] builds for the send. *)
Definition saramaMessage (msg : KafkaMessage) : ProducerMessage :=
  mkProducerMessage (Topic msg) (Message msg).

Inductive log_entry : Type :=
| LogError (text : string) (err : string)
| LogInfo (text : string) (topic : string).

(** How the goroutine ends: it returned, it dereferenced nil, or it is
    parked in [select] with nothing more to pick. *)
Inductive ending : Type :=
| Returned
| NilDereference
| Parked.

Section WithSarama.

(** The sarama sync producer: its state (connection and cluster behind
    it), its constructor and its [SendMessage], whose error is [None]
    for nil. *)
Variable broker : Type.
Variable NewSyncProducer : list string -> result broker.
Variable SendMessage : broker -> ProducerMessage -> broker * option string.

(** Everything observable of one run: each [SendMessage] call with the
    error it returned, the log lines, whether [Close] ran, the ending. *)
Record run : Type := mkRun {
  sends : list (ProducerMessage * option string);
  logs : list log_entry;
  closed : bool;
  final : ending
}.

Definition after_send (call : ProducerMessage * option string) (entry : log_entry)
    (r : run) : run :=
  {| sends := call :: sends r; logs := entry :: logs r;
     closed := closed r; final := final r |}.

(** The [for { select { ... } }] loop; [picks] resolves each [select]. *)
Fixpoint loop (p : broker) (picks : list selected) : run :=
  match picks with
  | [] => mkRun [] [] false Parked
  | DoneSignal :: _ => mkRun [] [] true Returned
  | Received None :: _ => mkRun [] [] true NilDereference
  | Received (Some msg) :: rest =>
      let '(p', err) := SendMessage p (saramaMessage msg) in
      match err with
      | Some e =>
          after_send (saramaMessage msg, err) (LogError "Error sending message" e)
                     (loop p' rest)
      | None =>
          after_send (saramaMessage msg, err) (LogInfo "Sent message" (Topic msg))
                     (loop p' rest)
      end
  end.

(** [Producer]: [brokers] is what the configuration holds under
    [<configRoot>.producer.brokers]. *)
Definition Producer (brokers : list string) (picks : list selected) : run :=
  match NewSyncProducer brokers with
  | Err e => mkRun [] [LogError "Failed to start kafka producer" e] false Returned
  | Ok p => loop p picks
  end.

(** The log line [Producer] writes after a [SendMessage] call, by the
    error the call returned. *)
Definition send_log (call : ProducerMessage * option string) : log_entry :=
  match snd call with
  | Some e => LogError "Error sending message" e
  | None => LogInfo "Sent message" (pm_Topic (fst call))
  end.

(** The messages [inChan] handed over before the run ended. *)
Fixpoint received (picks : list selected) : list KafkaMessage :=
  match picks with
  | Received (Some msg) :: rest => msg :: received rest
  | _ => []
  end.

(** How often [SendMessage] was called for [m], and whether one of the
    calls succeeded. *)
Definition attempts (r : run) (m : ProducerMessage) : nat :=
  length (filter (fun call => fst call = m) (sends r)).

Definition delivered (r : run) (m : ProducerMessage) : Prop :=
  (m, None) ∈ sends r.

Definition send_failed (r : run) (m : ProducerMessage) : Prop :=
  exists e, (m, Some e) ∈ sends r.

(** The specification's publisher, read off a run: a message whose send
    failed was sent again before it was given up. *)
Definition retries_failed_sends (r : run) : Prop :=
  forall m, send_failed r m -> (1 < attempts r m)%nat.

End WithSarama.

Arguments loop {broker} SendMessage p picks.
Arguments Producer {broker} NewSyncProducer SendMessage brokers picks.

(** A cluster that refuses the first [n] sends and accepts every later
    one; the state counts the refusals still to come. *)
Definition flaky_send (n : nat) (m : ProducerMessage) : nat * option string :=
  match n with
  | O => (O, None)
  | S k => (k, Some "kafka: leader not available")
  end.

Definition flaky_new (n : nat) (brokers : list string) : result nat :=
  match brokers with
  | [] => Err "kafka: invalid configuration (You must provide at least one broker address)"
  | _ => Ok n
  end.

Definition greeting : KafkaMessage := mkKafkaMessage "push-gcm_game" "{}".

End Producer.

(** ** [workers/batch_pg_workers.go]: the batch worker *)

Module Workers.

(** [interface{}] values as filters and modifiers hold them. *)
Inductive value : Type :=
| VInt (n : Z)
| VString (s : string)
| VNil.

#[global] Instance value_eq_dec : EqDecision value.
Proof. solve_decision. Defined.

(** Modelled from the spec: [messages.InputMessage], whose package is not
    among the sources. The job descriptor of the specification's data
    model, with the fields [pgReader] reads ([App], [Service]) and writes
    ([Token], [Locale]). *)
Record InputMessage : Type := mkInputMessage {
  App : string;
  Service : string;
  Template : string;
  PushExpiry : Z;
  Token : string;
  Locale : string
}.

#[global] Instance InputMessage_eq_dec : EqDecision InputMessage.
Proof. solve_decision. Defined.

(** Modelled from the spec: [models.UserToken], one row of a
    [user_tokens_<app>_<service>] table, with the two columns [pgReader]
    copies into the message. *)
Record UserToken : Type := mkUserToken {
  UserToken_Token : string;
  UserToken_Locale : string
}.

#[global] Instance UserToken_eq_dec : EqDecision UserToken.
Proof. solve_decision. Defined.

(** [BatchPGWorker]: the fields that carry data. [NotifierID] is
    [worker.Notifier.ID]; the logger, configuration, connections and
    channels are not data of the model. UUIDs are held in their string
    form. *)
Record BatchPGWorker : Type := mkWorker {
  ID : string;
  NotifierID : string;
  Message : InputMessage;
  Filters : list (list value);
  Modifiers : list (list value);
  StartedAt : Z;
  TotalTokens : Z;
  ProcessedTokens : Z;
  TotalPages : Z;
  ProcessedPages : Z
}.

Definition set_Message (m : InputMessage) (w : BatchPGWorker) : BatchPGWorker :=
  mkWorker (ID w) (NotifierID w) m (Filters w) (Modifiers w) (StartedAt w)
           (TotalTokens w) (ProcessedTokens w) (TotalPages w) (ProcessedPages w).

Definition set_StartedAt (t : Z) (w : BatchPGWorker) : BatchPGWorker :=
  mkWorker (ID w) (NotifierID w) (Message w) (Filters w) (Modifiers w) t
           (TotalTokens w) (ProcessedTokens w) (TotalPages w) (ProcessedPages w).

Definition set_TotalTokens (n : Z) (w : BatchPGWorker) : BatchPGWorker :=
  mkWorker (ID w) (NotifierID w) (Message w) (Filters w) (Modifiers w) (StartedAt w)
           n (ProcessedTokens w) (TotalPages w) (ProcessedPages w).

Definition set_ProcessedTokens (n : Z) (w : BatchPGWorker) : BatchPGWorker :=
  mkWorker (ID w) (NotifierID w) (Message w) (Filters w) (Modifiers w) (StartedAt w)
           (TotalTokens w) n (TotalPages w) (ProcessedPages w).

Definition set_TotalPages (n : Z) (w : BatchPGWorker) : BatchPGWorker :=
  mkWorker (ID w) (NotifierID w) (Message w) (Filters w) (Modifiers w) (StartedAt w)
           (TotalTokens w) (ProcessedTokens w) n (ProcessedPages w).

Definition set_ProcessedPages (n : Z) (w : BatchPGWorker) : BatchPGWorker :=
  mkWorker (ID w) (NotifierID w) (Message w) (Filters w) (Modifiers w) (StartedAt w)
           (TotalTokens w) (ProcessedTokens w) (TotalPages w) n.

Definition set_Token (token : string) (m : InputMessage) : InputMessage :=
  mkInputMessage (App m) (Service m) (Template m) (PushExpiry m) token (Locale m).

Definition set_Locale (locale : string) (m : InputMessage) : InputMessage :=
  mkInputMessage (App m) (Service m) (Template m) (PushExpiry m) (Token m) locale.

(** The message after [message.Token = userToken.Token] and
    [message.Locale = userToken.Locale]. *)
Definition with_user (u : UserToken) (m : InputMessage) : InputMessage :=
  set_Locale (UserToken_Locale u) (set_Token (UserToken_Token u) m).

(** *** Effects of [pgReader] *)

(** What [pgReader] does to the outside, in program order: the two kinds
    of store query with the arguments passed, a send on [outChan], a
    write to a field of the worker (with the worker as it is after the
    write, which is what a concurrent [GetStatus] can see), and the log
    lines at error level and above. *)
Inductive event : Type :=
| Count (app service : string) (filters modifiers : list (list value))
| Select (app service : string) (filters modifiers : list (list value))
| Send (strMsg : string)
| Wrote (w : BatchPGWorker)
| Logged (level text : string).

(** How [pgReader] leaves: by [return outChan, err]; through zap's
    [Fatal], which logs and calls [os.Exit(1)]; by a run-time panic (a
    failed type assertion, an index out of range); or, in the model only,
    by exhausting the fuel of a loop. *)
Inductive exit : Type :=
| Return (err : option string)
| Fatal
| Panic
| OutOfFuel.

Inductive step (A : Type) : Type :=
| Next (a : A)
| Exit (e : exit).
Arguments Next {A} a.
Arguments Exit {A} e.

(** Computations over the worker's fields that log events and may leave
    early. *)
Definition M (A : Type) : Type :=
  BatchPGWorker -> step A * BatchPGWorker * list event.

Definition ret {A : Type} (a : A) : M A := fun w => (Next a, w, []).

Definition bind {A B : Type} (c : M A) (k : A -> M B) : M B :=
  fun w =>
    match c w with
    | (Next a, w1, ev1) =>
        match k a w1 with
        | (r, w2, ev2) => (r, w2, ev1 ++ ev2)
        end
    | (Exit e, w1, ev1) => (Exit e, w1, ev1)
    end.

Notation "x <- c ;; k" := (bind c (fun x => k))
  (at level 100, c at next level, k at level 200, right associativity).
Notation "c ;;; k" := (bind c (fun _ => k))
  (at level 100, k at level 200, right associativity).

Definition get : M BatchPGWorker := fun w => (Next w, w, []).
Definition emit (e : event) : M unit := fun w => (Next tt, w, [e]).
Definition leave {A : Type} (e : exit) : M A := fun w => (Exit e, w, []).

(** A field assignment. *)
Definition assign (f : BatchPGWorker -> BatchPGWorker) : M unit :=
  fun w => (Next tt, f w, [Wrote (f w)]).

(** [l.Fatal(text, ...)] *)
Definition fatal {A : Type} (text : string) : M A :=
  emit (Logged "fatal" text) ;;; leave Fatal.

(** *** Reading the limit *)

(** [modifier[0] == "LIMIT"] on an [interface{}]. *)
Definition is_LIMIT (v : value) : bool :=
  match v with
  | VString s => bool_decide (s = "LIMIT")
  | _ => false
  end.

(** The [for _, modifier := range modifiers] loop that finds the limit;
    [None] is a run-time panic ([modifier[0]] or [modifier[1]] out of
    range, or [modifier[1].(int)] on something that is no int). *)
Fixpoint scan_limit (limit : Z) (modifiers : list (list value)) : option Z :=
  match modifiers with
  | [] => Some limit
  | modifier :: rest =>
      match modifier with
      | [] => None
      | key :: args =>
          if is_LIMIT key then
            match args with
            | VInt n :: _ => scan_limit n rest
            | _ => None
            end
          else scan_limit limit rest
      end
  end.

(** A modifier on which that loop does not panic: it has a key, and if
    the key is [LIMIT] an [int] follows. *)
Definition well_formed_modifier (modifier : list value) : Prop :=
  match modifier with
  | [] => False
  | key :: args =>
      is_LIMIT key = true -> exists n rest, args = VInt n :: rest
  end.

(** The value of a [LIMIT] entry, and the values of all of them in
    order. *)
Definition limit_value (modifier : list value) : option Z :=
  match modifier with
  | key :: VInt n :: _ => if is_LIMIT key then Some n else None
  | _ => None
  end.

Definition limit_values (modifiers : list (list value)) : list Z :=
  omap limit_value modifiers.

(** [pages := userTokensCount/int64(limit) + 1], in [int64]. Go's [/]
    truncates toward zero ([Z.quot]). *)
Definition pages_of (userTokensCount limit : Z) : Z :=
  wrap64 (Z.quot userTokensCount limit + 1).

Section WithStore.

(** The store queries of package [models] and [json.Marshal] on the
    message; none of the three is among the sources. The database is
    the one behind [worker.Db] and does not change during a job, so a
    query is a function of its arguments. *)
Variable CountUserTokensByFilters :
  string -> string -> list (list value) -> list (list value) -> result Z.
Variable GetUserTokensBatchByFilters :
  string -> string -> list (list value) -> list (list value) -> result (list UserToken).
Variable json_Marshal : InputMessage -> result string.

(** The [for _, userToken := range userTokens] loop. *)
Fixpoint range_userTokens (userTokens : list UserToken) : M unit :=
  match userTokens with
  | [] => ret tt
  | userToken :: rest =>
      assign (fun w => set_Message (set_Token (UserToken_Token userToken) (Message w)) w) ;;;
      assign (fun w => set_Message (set_Locale (UserToken_Locale userToken) (Message w)) w) ;;;
      w <- get ;;
      match json_Marshal (Message w) with
      | Err e =>
          emit (Logged "error" "Failed to marshal msg") ;;;
          leave (Return (Some e))
      | Ok strMsg =>
          emit (Send strMsg) ;;;
          assign (fun w => set_ProcessedTokens (ProcessedTokens w + 1) w) ;;;
          range_userTokens rest
      end
  end.

(** The [for worker.ProcessedTokens < len(userTokens)] loop around it.
    Entered with the counter at zero it makes one pass, or none on an
    empty batch. *)
Fixpoint while_ProcessedTokens (fuel : nat) (userTokens : list UserToken) : M unit :=
  w <- get ;;
  if ProcessedTokens w <? Z.of_nat (length userTokens) then
    match fuel with
    | O => leave OutOfFuel
    | S fuel' =>
        range_userTokens userTokens ;;;
        while_ProcessedTokens fuel' userTokens
    end
  else ret tt.

(** The page loop, entered after [worker.ProcessedPages = int64(0)]. The
    store is queried with [modifiers], the list [pgReader] was given;
    [workerModifiers], to which the source assigns
    [{"OFFSET", worker.ProcessedPages}] just before, is passed nowhere.
    [worker.ProcessedPages++] cannot overflow below [worker.TotalPages]. *)
Fixpoint page_loop (fuel : nat) (filters modifiers : list (list value)) : M unit :=
  w <- get ;;
  if ProcessedPages w <? TotalPages w then
    match fuel with
    | O => leave OutOfFuel
    | S fuel' =>
        emit (Select (App (Message w)) (Service (Message w)) filters modifiers) ;;;
        match GetUserTokensBatchByFilters
                (App (Message w)) (Service (Message w)) filters modifiers with
        | Err e =>
            emit (Logged "error" "Failed to get user tokens by filters and modifiers") ;;;
            leave (Return (Some e))
        | Ok userTokens =>
            assign (set_ProcessedTokens 0) ;;;
            while_ProcessedTokens 1 userTokens ;;;
            assign (fun w => set_ProcessedPages (ProcessedPages w + 1) w) ;;;
            page_loop fuel' filters modifiers
        end
    end
  else ret tt.

(** [pgReader]. [message] is the pointer [worker.Message], as [Start]
    passes it: writes through it are writes to the worker. *)
Definition pgReader (filters modifiers : list (list value)) : M unit :=
  match scan_limit (-1) modifiers with
  | None => leave Panic
  | Some limit =>
      if limit <=? 0 then fatal "Limit should be greater than 0"
      else
        w <- get ;;
        emit (Count (App (Message w)) (Service (Message w)) filters modifiers) ;;;
        match CountUserTokensByFilters
                (App (Message w)) (Service (Message w)) filters modifiers with
        | Err e => fatal "Error while counting tokens"
        | Ok userTokensCount =>
            assign (set_TotalTokens userTokensCount) ;;;
            if userTokensCount <? 0 then fatal "worker.TotalTokens lower than 0"
            else
              assign (set_TotalTokens userTokensCount) ;;;
              let pages := pages_of userTokensCount limit in
              assign (set_TotalPages pages) ;;;
              assign (set_ProcessedPages 0) ;;;
              page_loop (Z.to_nat pages) filters modifiers ;;;
              leave (Return None)
        end
  end.

(** [Start], as far as the reader goes: stamp [StartedAt], then run
    [pgReader] on the worker's own message, filters and modifiers. *)
Definition Start (now : Z) : M unit :=
  assign (set_StartedAt now) ;;;
  w <- get ;;
  pgReader (Filters w) (Modifiers w).

End WithStore.

(** *** Status reporting *)

(** The Go values [GetStatus] puts in its [map[string]interface{}]: a
    [uuid.UUID], an [int64], an [int], the [*messages.InputMessage] and the
    [[][]interface{}] of filters. *)
Inductive status_value : Type :=
| Uuid (s : string)
| Int64 (n : Z)
| Int (n : Z)
| MessagePtr (m : InputMessage)
| Rows (rows : list (list value)).

(** [GetStatus] *)
Definition GetStatus (w : BatchPGWorker) : gmap string status_value :=
  {[ "notificationID" := Uuid (ID w);
     "startedAt" := Int64 (StartedAt w);
     "totalTokens" := Int64 (TotalTokens w);
     "processedTokens" := Int (ProcessedTokens w);
     "totalPages" := Int64 (TotalPages w);
     "processedPages" := Int64 (ProcessedPages w);
     "message" := MessagePtr (Message w);
     "filters" := Rows (Filters w) ]}.

(** [strings.Join] *)
Fixpoint strings_Join (elems : list string) (sep : string) : string :=
  match elems with
  | [] => ""
  | [e] => e
  | e :: rest => e +:+ sep +:+ strings_Join rest sep
  end.

(** The key [SetStatus] writes under. *)
Definition redisKey (w : BatchPGWorker) : string :=
  strings_Join [NotifierID w; ID w] "|".

(** How [SetStatus] ends: it returned, or zap's [Panic] logged the text
    and panicked. *)
Inductive status_end : Type :=
| StatusSet
| StatusPanic (text : string).

(** One pass of the updater's [select]: [doneChan] was ready, or the
    default branch ran and saw the worker as given. *)
Inductive tick : Type :=
| DoneReady
| Default (w : BatchPGWorker).

(** How [updateStatus] stands after the ticks: returned on [doneChan],
    killed by the panic of a [SetStatus], or still looping. *)
Inductive updater_end : Type :=
| UpdaterReturned
| UpdaterPanicked (text : string)
| UpdaterLooping.

Section WithRedis.

(** The redis client ([cli.Set(key, value, 0).Err()], [None] for a nil
    error) and [json.Marshal] on the status map; both are libraries. *)
Variable redis : Type.
Variable redis_Set : redis -> string -> string -> redis * option string.
Variable json_Marshal : gmap string status_value -> result string.

(** [SetStatus] *)
Definition SetStatus (w : BatchPGWorker) (cli : redis) : status_end * redis :=
  match json_Marshal (GetStatus w) with
  | Err e => (StatusPanic "Could not parse worker status", cli)
  | Ok strStatus =>
      match redis_Set cli (redisKey w) strStatus with
      | (cli', Some e) => (StatusPanic "Failed to set notification key in redis", cli')
      | (cli', None) => (StatusSet, cli')
      end
  end.

(** [updateStatus]; the result also counts the [SetStatus] calls that
    returned. *)
Fixpoint updateStatus (ticks : list tick) (cli : redis) : updater_end * redis * nat :=
  match ticks with
  | [] => (UpdaterLooping, cli, O)
  | DoneReady :: _ => (UpdaterReturned, cli, O)
  | Default w :: rest =>
      match SetStatus w cli with
      | (StatusPanic text, cli') => (UpdaterPanicked text, cli', O)
      | (StatusSet, cli') =>
          match updateStatus rest cli' with
          | (e, cli'', n) => (e, cli'', S n)
          end
      end
  end.

End WithRedis.

Arguments SetStatus {redis} redis_Set json_Marshal w cli.
Arguments updateStatus {redis} redis_Set json_Marshal ticks cli.

(** *** Executable stand-ins for the libraries *)

(** The double quote. *)
Definition dq : string := String (ascii_of_nat 34) EmptyString.

Definition quoted (s : string) : string := dq +:+ s +:+ dq.

(** [encoding/json] on the values that occur here, for strings none of
    whose characters needs escaping. *)
Definition render_value (v : value) : string :=
  match v with
  | VInt n => pretty n
  | VString s => quoted s
  | VNil => "null"
  end.

Definition render_array (items : list string) : string :=
  "[" +:+ strings_Join items "," +:+ "]".

Definition render_field (field : string * string) : string :=
  quoted (fst field) +:+ ":" +:+ snd field.

Definition render_object (fields : list (string * string)) : string :=
  "{" +:+ strings_Join (map render_field fields) "," +:+ "}".

Definition render_message (m : InputMessage) : string :=
  render_object [("app", quoted (App m)); ("service", quoted (Service m));
                 ("template", quoted (Template m)); ("pushExpiry", pretty (PushExpiry m));
                 ("token", quoted (Token m)); ("locale", quoted (Locale m))].

Definition marshal_message (m : InputMessage) : result string := Ok (render_message m).

Definition render_status_value (v : status_value) : string :=
  match v with
  | Uuid s => quoted s
  | Int64 n => pretty n
  | Int n => pretty n
  | MessagePtr m => render_message m
  | Rows rows => render_array (map (fun r => render_array (map render_value r)) rows)
  end.

Definition key_le (a b : string * string) : Prop := String.leb (fst a) (fst b) = true.

#[global] Instance key_le_dec a b : Decision (key_le a b).
Proof. unfold key_le. apply _. Defined.

(** A map is encoded as an object with its keys sorted. *)
Definition marshal_status (status : gmap string status_value) : result string :=
  Ok (render_object
        (merge_sort key_le
           (map (fun kv => (fst kv, render_status_value (snd kv))) (map_to_list status)))).

(** A key-value store standing for redis: [SET] with no expiry on a
    reachable server overwrites the key; on an unreachable one it fails
    and changes nothing. *)
Record Redis : Type := mkRedis {
  kv : gmap string string;
  reachable : bool
}.

Definition Redis_Set (cli : Redis) (key val : string) : Redis * option string :=
  if reachable cli then (mkRedis (<[key := val]> (kv cli)) true, None)
  else (cli, Some "dial tcp 127.0.0.1:6379: connect: connection refused").

(** Modelled from the spec: [CountUserTokensByFilters] and
    [GetUserTokensBatchByFilters] of package [models], which is not among
    the sources, over a table that holds exactly the tokens matching the
    filters. The recognised modifiers are [LIMIT n], which keeps the first
    [n] rows, and [OFFSET k], which skips [k] rows first. *)
Fixpoint modifier_arg (key : string) (modifiers : list (list value)) : option Z :=
  match modifiers with
  | [] => None
  | [VString k; VInt n] :: rest =>
      if bool_decide (k = key) then Some n else modifier_arg key rest
  | _ :: rest => modifier_arg key rest
  end.

Definition table_count (table : list UserToken)
    (app service : string) (filters modifiers : list (list value)) : result Z :=
  Ok (Z.of_nat (length table)).

Definition table_select (table : list UserToken)
    (app service : string) (filters modifiers : list (list value))
    : result (list UserToken) :=
  let rows := drop (Z.to_nat (default 0 (modifier_arg "OFFSET" modifiers))) table in
  Ok (match modifier_arg "LIMIT" modifiers with
      | Some n => take (Z.to_nat n) rows
      | None => rows
      end).

(** [n] distinct tokens. *)
Definition tokens (n : nat) : list UserToken :=
  map (fun i => mkUserToken ("token-" +:+ pretty i) "en") (seq 0 n).

Definition job : InputMessage := mkInputMessage "game" "gcm" "welcome" 0 "" "".

(** The modifiers of a job that asks for pages of [n]. *)
Definition limit_of (n : Z) : list (list value) := [[VString "LIMIT"; VInt n]].

(** A worker as [GetBatchPGWorker] hands it out: counters at zero. *)
Definition new_worker (modifiers : list (list value)) : BatchPGWorker :=
  mkWorker "6ba7b810-9dad-11d1-80b4-00c04fd430c8"
           "6ba7b811-9dad-11d1-80b4-00c04fd430c8"
           job [] modifiers 0 0 0 0 0.

(** The fields of a worker a status observer can have seen during a run:
    the initial ones and those after each write. *)
Definition history (w0 : BatchPGWorker) (events : list event) : list BatchPGWorker :=
  w0 :: omap (fun e => match e with Wrote w => Some w | _ => None end) events.

Definition sent (events : list event) : list string :=
  omap (fun e => match e with Send s => Some s | _ => None end) events.

Definition selects (events : list event) : list (list (list value)) :=
  omap (fun e => match e with Select _ _ _ modifiers => Some modifiers | _ => None end) events.




(** The specification's reporter, read off one call of [SetStatus]: when
    the write to the store fails, the call still returns. *)
Definition survives_write_failure {redis : Type}
    (redis_Set : redis -> string -> string -> redis * option string)
    (json_Marshal : gmap string status_value -> result string)
    (w : BatchPGWorker) (cli : redis) : Prop :=
  forall strStatus,
    json_Marshal (GetStatus w) = Ok strStatus ->
    (redis_Set cli (redisKey w) strStatus).2 <> None ->
    (SetStatus redis_Set json_Marshal w cli).1 = StatusSet.

Definition redis_up : Redis := mkRedis ∅ true.
Definition redis_down : Redis := mkRedis ∅ false.


(** *** Predicates on runs *)

(** Every event a computation logs satisfies [P], from whatever worker
    it starts. *)
Definition emits {A : Type} (P : event -> Prop) (c : M A) : Prop :=
  forall w, Forall P (c w).2.

(** The modifiers of a store query are the ones given. *)
Definition queried_with (modifiers : list (list value)) (e : event) : Prop :=
  match e with
  | Count _ _ _ m | Select _ _ _ m => m = modifiers
  | _ => True
  end.

(** The writes of [log], starting from the fields [w], go through fields
    each related by [R] to the ones before, and end in [w']. *)
Inductive follows (R : relation BatchPGWorker)
  : BatchPGWorker -> list event -> BatchPGWorker -> Prop :=
| follows_nil w : follows R w [] w
| follows_wrote w w1 log w' :
    R w w1 -> follows R w1 log w' -> follows R w (Wrote w1 :: log) w'
| follows_other w e log w' :
    (forall w1, e <> Wrote w1) -> follows R w log w' -> follows R w (e :: log) w'.

(** Run from [w], the computation writes along [R], does not exhaust the
    fuel of a loop, and, if it goes on, does so with a value and fields
    that satisfy [Q]. *)
Definition runs (R : relation BatchPGWorker) {A : Type} (c : M A) (w : BatchPGWorker)
    (Q : A -> BatchPGWorker -> Prop) : Prop :=
  follows R w (c w).2 (c w).1.2 /\
  match (c w).1.1 with
  | Next a => Q a (c w).1.2
  | Exit e => e <> OutOfFuel
  end.

(** The three counters that only [pgReader]'s page bookkeeping writes. *)
Definition counters_le (a b : BatchPGWorker) : Prop :=
  TotalTokens a <= TotalTokens b /\
  TotalPages a <= TotalPages b /\
  ProcessedPages a <= ProcessedPages b.

Definition same_page (w w' : BatchPGWorker) : Prop :=
  ProcessedPages w' = ProcessedPages w /\ TotalPages w' = TotalPages w.

End Workers.

(** ** Package [worker]: decoding a batch job

    [worker/util_test.go] is among the sources; the function under test,
    [ParseProcessBatchWorkerMessageArray], is not. It is modelled from the
    specification's scenario S5 and from the shapes the test builds. *)

Module WorkerUtil.

(** The [interface{}] values a message array is built from. A map is
    held as its list of entries; [entries_map] turns it into a finite map. *)
#[warnings="-register-all"]
Inductive dyn : Type :=
| DString (s : string)
| DInt64 (n : Z)
| DMap (entries : list (string * dyn))
| DArray (items : list dyn).

Definition entries_map (entries : list (string * dyn)) : gmap string dyn :=
  list_to_map entries.

(** [worker.User] *)
Record User : Type := mkUser {
  UserID : string;
  Token : string
}.

(** [model.Template], the two fields the test compares, as the test
    builds them: maps of strings. (In [model/template.go] of the sources
    the two are still JSON text.) *)
Record Template : Type := mkTemplate {
  Body : gmap string string;
  Defaults : gmap string string
}.

(** The decoded job. [JobID] is a UUID, held in the text [String()]
    prints for it. *)
Record BatchWorkerMessage : Type := mkBatchWorkerMessage {
  JobID : string;
  AppName : string;
  Service : string;
  MsgTemplate : Template;
  Context : gmap string dyn;
  Metadata : gmap string dyn;
  Users : list User;
  ExpiresAt : Z
}.

(** The three ways a call ends: a message, an error, or a panic (the
    test's pending cases: a position that holds the wrong kind of value). *)
Inductive parsed : Type :=
| Parsed (m : BatchWorkerMessage)
| Failed (message : string)
| Panicked.

(** Modelled from the spec: the error text of a message array that does
    not have its eight positions, the constant [worker.InvalidMessageArray]. *)
Definition InvalidMessageArray : string := "InvalidMessageArray".

(** *** UUIDs in text *)

Definition between (lo hi : nat) (c : ascii) : bool :=
  (lo <=? nat_of_ascii c)%nat && (nat_of_ascii c <=? hi)%nat.

Definition is_digit (c : ascii) : bool := between 48 57 c.
Definition is_lower_hex (c : ascii) : bool := between 97 102 c.
Definition is_upper_hex (c : ascii) : bool := between 65 70 c.
Definition is_hex (c : ascii) : bool := is_digit c || is_lower_hex c || is_upper_hex c.

(** The digit [String()] prints for the value a hexadecimal digit has. *)
Definition lower_hex (c : ascii) : ascii :=
  if is_upper_hex c then ascii_of_nat (nat_of_ascii c + 32) else c.

Fixpoint map_string (f : ascii -> ascii) (s : string) : string :=
  match s with
  | EmptyString => EmptyString
  | String c rest => String (f c) (map_string f rest)
  end.

(** [n] hexadecimal digits at the head of [s]: what follows them. *)
Fixpoint hex_run (n : nat) (s : string) : option string :=
  match n, s with
  | O, _ => Some s
  | S k, String c rest => if is_hex c then hex_run k rest else None
  | S _, EmptyString => None
  end.

(** Groups of hexadecimal digits separated by single hyphens, and nothing
    after the last. *)
Fixpoint hex_groups (groups : list nat) (s : string) : bool :=
  match groups with
  | [] => bool_decide (s = "")
  | [n] =>
      match hex_run n s with
      | Some rest => bool_decide (rest = "")
      | None => false
      end
  | n :: more =>
      match hex_run n s with
      | Some (String "-" rest) => hex_groups more rest
      | _ => false
      end
  end.

(** The canonical form [xxxxxxxx-xxxx-xxxx-xxxx-xxxxxxxxxxxx]. *)
Definition is_uuid (s : string) : bool := hex_groups [8; 4; 4; 4; 12]%nat s.

(** Modelled from the spec: [uuid.FromString] of the UUID library, for
    the canonical form. Every error it returns starts with [uuid:]. The
    result is the text [String()] prints for the parsed value: the same
    digits in lower case. *)
Definition uuid_FromString (s : string) : result string :=
  if (String.length s <? 32)%nat then Err ("uuid: UUID string too short: " +:+ s)
  else if is_uuid s then Ok (map_string lower_hex s)
  else Err "uuid: invalid string format".

(** [needle] occurs in [text]. *)
Definition mentions (needle text : string) : Prop :=
  exists before after, text = before +:+ needle +:+ after.

(** *** Decoding the positions *)

Definition as_string (v : dyn) : option string :=
  match v with
  | DString s => Some s
  | _ => None
  end.

(** A map all of whose values are strings. *)
Definition string_map (entries : list (string * dyn)) : option (gmap string string) :=
  list_to_map <$> mapM (fun kv => pair (fst kv) <$> as_string (snd kv)) entries.

(** A string-valued field of a JSON object; absent fields decode to the
    empty string or the empty map. *)
Definition string_field (key : string) (entries : list (string * dyn)) : option string :=
  match entries_map entries !! key with
  | None => Some ""
  | Some v => as_string v
  end.

Definition map_field (key : string) (entries : list (string * dyn))
    : option (gmap string string) :=
  match entries_map entries !! key with
  | None => Some ∅
  | Some (DMap fields) => string_map fields
  | Some _ => None
  end.

Definition decode_template (entries : list (string * dyn)) : option Template :=
  body ← map_field "body" entries;
  defaults ← map_field "defaults" entries;
  Some (mkTemplate body defaults).

Definition decode_user (v : dyn) : option User :=
  match v with
  | DMap entries =>
      id ← string_field "user_id" entries;
      token ← string_field "token" entries;
      Some (mkUser id token)
  | _ => None
  end.

Definition decode_users (items : list dyn) : option (list User) :=
  mapM decode_user items.

(** Modelled from the spec: [ParseProcessBatchWorkerMessageArray]. The
    array must have the eight positions [jobId, appName, service,
    templateObj, context, metadata, users, expiresAt]; the job id must be
    a UUID; there must be at least one user. *)
Definition ParseProcessBatchWorkerMessageArray (arr : list dyn) : parsed :=
  match arr with
  | [jobId; appName; service; templateObj; context; metadata; users; expiresAt] =>
      match jobId, appName, service, templateObj, context, metadata, users, expiresAt with
      | DString jobIDStr, DString app, DString svc, DMap tpl, DMap ctx, DMap meta,
        DArray us, DInt64 expires =>
          match uuid_FromString jobIDStr with
          | Err e => Failed e
          | Ok jobID =>
              match decode_template tpl, decode_users us with
              | Some template, Some [] => Failed "there must be at least one user"
              | Some template, Some decoded =>
                  Parsed (mkBatchWorkerMessage jobID app svc template
                            (entries_map ctx) (entries_map meta) decoded expires)
              | _, _ => Panicked
              end
          end
      | _, _, _, _, _, _, _, _ => Panicked
      end
  | _ => Failed InvalidMessageArray
  end.

(** *** Building a message array *)

(** A [map[string]string] as [interface{}] entries. *)
Definition string_entries (m : list (string * string)) : list (string * dyn) :=
  map (fun kv => (fst kv, DString (snd kv))) m.

(** The test's [usersObj] entry for a user and its [templateObj]. *)
Definition user_obj (u : User) : dyn :=
  DMap [("user_id", DString (UserID u)); ("token", DString (Token u))].

Definition template_obj (body defaults : list (string * string)) : dyn :=
  DMap [("body", DMap (string_entries body)); ("defaults", DMap (string_entries defaults))].

(** The array the test builds: every position present and of its kind. *)
Definition message_array (jobIDStr appName service : string)
    (body defaults : list (string * string)) (ctx meta : list (string * dyn))
    (users : list User) (expiresAt : Z) : list dyn :=
  [DString jobIDStr; DString appName; DString service; template_obj body defaults;
   DMap ctx; DMap meta; DArray (map user_obj users); DInt64 expiresAt].

Fixpoint all_chars (p : ascii -> bool) (s : string) : bool :=
  match s with
  | EmptyString => true
  | String c rest => p c && all_chars p rest
  end.

(** No upper-case hexadecimal digit, as in what [uuid.NewV4().String()]
    prints. *)
Definition lower_case (s : string) : bool :=
  all_chars (fun c => negb (is_upper_hex c)) s.

(** The fixtures of [worker/util_test.go]. *)
Definition body : list (string * string) :=
  [("alert", "{{user_name}} just liked your {{object_name}}!")].

Definition defaults : list (string * string) :=
  [("user_name", "Someone"); ("object_name", "village")].

Definition context : list (string * dyn) :=
  [("user_name", DString "Camila"); ("object_name", DString "building")].

Definition metadata : list (string * dyn) := [("meta", DString "data")].

Definition users : list User :=
  [mkUser "9e558649-9c23-469d-a11c-59b05813e3d5" "57be9009a11a4c1a9b6a1a3b4a4f1c11";
   mkUser "a8e8d2d5-f178-4d90-9b31-683ad3aae920" "5c3033c0fc6d4c2a9f4a1a3b4a4f1c22"].

Definition jobID : string := "0b0b9e0c-3a6f-4d3c-8a5e-2f1c4d5e6f70".

Definition expiresAt : Z := 1478000000000000000.

Definition arr_for (jobIDStr : string) (us : list User) : list dyn :=
  message_array jobIDStr "d2f1c4a9" "7c1e0b3a" body defaults context metadata us expiresAt.

End WorkerUtil.

(** ** [models/helpers.go]: the test handles *)

Module ModelsHelpers.
Import Models.

(** The arguments [GetTestDB] and [GetFaultyTestDB] both pass on. *)
Definition test_args : conn_args :=
  mkArgs "localhost" "marathon_test" 5432 "disable" "marathon_test" "".

(** [GetFaultyTestDB]: [InitDb] directly, the error dropped; [None] is
    the nil interface. [_db] is neither read nor written. *)
Definition GetFaultyTestDB {sqlDB : Type} (sql_Open : string -> string -> result sqlDB)
    (st : pkg sqlDB) : option (DbMap sqlDB) * pkg sqlDB :=
  match InitDb sql_Open test_args (opened st) with
  | (Ok faultyDb, log) => (Some faultyDb, mkPkg (_db st) log)
  | (Err _, log) => (None, mkPkg (_db st) log)
  end.

(** The handles and the errors in a list of results. *)
Fixpoint handles {A : Type} (rs : list (result A)) : list A :=
  match rs with
  | [] => []
  | Ok a :: rest => a :: handles rest
  | Err _ :: rest => handles rest
  end.

Fixpoint errors {A : Type} (rs : list (result A)) : list string :=
  match rs with
  | [] => []
  | Ok _ :: rest => errors rest
  | Err e :: rest => e :: errors rest
  end.

End ModelsHelpers.

(** ** The producer: how it ends *)

Module ProducerEnd.
Import Producer.

(** The first pick that is no message: what ends the loop. *)
Fixpoint stop_of (picks : list selected) : option selected :=
  match picks with
  | [] => None
  | Received (Some _) :: rest => stop_of rest
  | pick :: _ => Some pick
  end.

Definition ending_of (stop : option selected) : ending :=
  match stop with
  | None => Parked
  | Some DoneSignal => Returned
  | Some (Received _) => NilDereference
  end.

End ProducerEnd.

(** ** [workers/batch_pg_workers.go]: whole runs of the reader *)

Module ReaderRuns.
Import Workers.

(** What a run from [w] comes to: how it ends, the fields it leaves and
    the events it logged satisfy [Q]. *)
Definition yields {A : Type} (c : M A) (w : BatchPGWorker)
    (Q : step A -> BatchPGWorker -> list event -> Prop) : Prop :=
  Q (c w).1.1 (c w).1.2 (c w).2.

(** The job a message is for: everything but the token and the locale. *)
Definition same_job (m m' : InputMessage) : Prop :=
  App m' = App m /\ Service m' = Service m /\
  Template m' = Template m /\ PushExpiry m' = PushExpiry m.

(** What the token loop leaves alone. *)
Definition paging_frame (w w' : BatchPGWorker) : Prop :=
  same_job (Message w) (Message w') /\
  TotalTokens w' = TotalTokens w /\
  TotalPages w' = TotalPages w /\
  ProcessedPages w' = ProcessedPages w.

(** What no part of the reader writes. *)
Definition same_identity (w w' : BatchPGWorker) : Prop :=
  ID w' = ID w /\ NotifierID w' = NotifierID w /\
  Filters w' = Filters w /\ Modifiers w' = Modifiers w /\
  StartedAt w' = StartedAt w /\ same_job (Message w) (Message w').

(** Store queries that fail, a count below zero, and a [json.Marshal]
    that rejects the message for one token. *)
Definition failing_count
    (app service : string) (filters modifiers : list (list value)) : result Z :=
  Err "pq: the database system is shutting down".

Definition negative_count
    (app service : string) (filters modifiers : list (list value)) : result Z :=
  Ok (-1).

Definition failing_select
    (app service : string) (filters modifiers : list (list value))
    : result (list UserToken) :=
  Err "pq: the database system is shutting down".

Definition marshal_unless (token : string) (m : InputMessage) : result string :=
  if decide (Token m = token) then Err "json: unsupported value"
  else Ok (render_message m).

(** The record sent for a token of [job]. *)
Definition record_for (u : UserToken) : string := render_message (with_user u job).

End ReaderRuns.

(** ** The status updater over time *)

Module Updater.
Import Workers.

(** The workers the updater saw before [doneChan] was ready. *)
Fixpoint observed (ticks : list tick) : list BatchPGWorker :=
  match ticks with
  | Default w :: rest => w :: observed rest
  | _ => []
  end.

End Updater.

(** ** Configuration of the batch worker *)

Module Viper.

(** A stand-in for the viper library, as far as the worker uses it. A
    configuration has what the configuration file and the environment
    provide and, below that, the registered defaults, both under
    lower-case keys, as the library stores them: keys are compared
    without regard to case. A key nobody defines reads as the zero value
    of the kind asked for. A setting is held in the kind the code reads
    it in; the library's conversions between kinds are not modelled, a
    setting read as another kind gives that kind's zero value here. *)
Inductive setting : Type :=
| SInt (n : Z)
| SString (s : string)
| SStrings (l : list string).

Record t : Type := mk {
  provided : gmap string setting;
  defaults : gmap string setting
}.

(** [viper.New()] *)
Definition New : t := mk ∅ ∅.

Definition lower_char (c : ascii) : ascii :=
  let n := nat_of_ascii c in
  if (65 <=? n)%nat && (n <=? 90)%nat then ascii_of_nat (n + 32) else c.

Fixpoint ToLower (s : string) : string :=
  match s with
  | EmptyString => EmptyString
  | String c rest => String (lower_char c) (ToLower rest)
  end.

Definition SetDefault (key : string) (value : setting) (cfg : t) : t :=
  mk (provided cfg) (<[ToLower key := value]> (defaults cfg)).

Definition find (key : string) (cfg : t) : option setting :=
  match provided cfg !! ToLower key with
  | Some v => Some v
  | None => defaults cfg !! ToLower key
  end.

Definition GetInt (key : string) (cfg : t) : Z :=
  match find key cfg with
  | Some (SInt n) => n
  | _ => 0
  end.

Definition GetString (key : string) (cfg : t) : string :=
  match find key cfg with
  | Some (SString s) => s
  | _ => ""
  end.

Definition GetStringSlice (key : string) (cfg : t) : list string :=
  match find key cfg with
  | Some (SStrings l) => l
  | _ => []
  end.

End Viper.

Module WorkerConfig.
Import Viper.

(** The [SetDefault] calls of [setConfigurationDefaults], in order. *)
Definition worker_defaults : list (string * setting) :=
  [("healthcheck.workingtext", SString "working");
   ("postgres.host", SString "localhost");
   ("postgres.user", SString "marathon");
   ("postgres.dbname", SString "marathon");
   ("postgres.port", SInt 5432);
   ("postgres.sslmode", SString "disable");
   ("postgres.sslmode", SString "disable");
   ("workers.modules.logger.level", SString "error");
   ("workers.modules.producers", SInt 1);
   ("workers.postgres.defaults.pushexpiry", SInt 0);
   ("workers.postgres.defaults.modifiers.limit", SInt 1000);
   ("workers.postgres.defaults.modifiers.order", SString "updated_at ASC");
   ("workers.modules.batchpgworkerdonechan", SInt 1);
   ("workers.modules.pgtoparserchan", SInt 10000);
   ("workers.modules.parserdonechan", SInt 1);
   ("workers.modules.parsertofetcherchan", SInt 1000);
   ("workers.modules.fetcherdonechan", SInt 1);
   ("workers.modules.fetchertobuilderchan", SInt 1000);
   ("workers.modules.builderdonechan", SInt 1);
   ("workers.modules.buildertoproducerchan", SInt 1000);
   ("workers.modules.producerdonechan", SInt 1)].

Definition set_defaults (entries : list (string * setting)) (cfg : t) : t :=
  foldl (fun c entry => SetDefault (fst entry) (snd entry) c) cfg entries.

(** The default a list of [SetDefault] calls leaves for a lower-case key:
    that of the last call on it. *)
Fixpoint registered (entries : list (string * setting)) (key : string) : option setting :=
  match entries with
  | [] => None
  | entry :: rest =>
      match registered rest key with
      | Some v => Some v
      | None => if decide (ToLower (fst entry) = key) then Some (snd entry) else None
      end
  end.

(** [setConfigurationDefaults] *)
Definition setConfigurationDefaults (cfg : t) : t := set_defaults worker_defaults cfg.

(** The capacities of the channels [createChannels] makes, by field. *)
Record channels : Type := mkChannels {
  BatchPGWorkerStatusDoneChan : Z;
  BatchPGWorkerDoneChan : Z;
  PgToParserChan : Z;
  ParserDoneChan : Z;
  ParserToFetcherChan : Z;
  FetcherDoneChan : Z;
  FetcherToBuilderChan : Z;
  BuilderDoneChan : Z;
  BuilderToProducerChan : Z;
  ProducerDoneChan : Z
}.

(** The keys [createChannels] reads, in the order of the fields. *)
Definition channel_keys : list string :=
  ["batchpgworkerstatusdonechan"; "batchpgworkerdonechansize"; "pgtoparserchansize";
   "parserdonechansize"; "parsertofetcherchansize"; "fetcherdonechansize";
   "fetchertobuilderchansize"; "builderdonechansize"; "buildertoproducerchansize";
   "producerdonechansize"].

(** [createChannels]; [None] is the run-time panic of [make] on a
    negative size. *)
Definition createChannels (cfg : t) : option channels :=
  let size key := GetInt key cfg in
  if forallb (fun key => 0 <=? size key) channel_keys then
    Some (mkChannels
            (size "batchpgworkerstatusdonechan") (size "batchpgworkerdonechansize")
            (size "pgtoparserchansize") (size "parserdonechansize")
            (size "parsertofetcherchansize") (size "fetcherdonechansize")
            (size "fetchertobuilderchansize") (size "builderdonechansize")
            (size "buildertoproducerchansize") (size "producerdonechansize"))
  else None.

(** The goroutines [Start] launches, in order. A [for i := 0; i < n; i++]
    loop runs [n] times, and not at all for a negative [n]. *)
Inductive goroutine : Type :=
| StatusUpdater
| ParserWorker
| FetcherWorker
| BuilderWorker
| ProducerWorker
| Reader.

Definition Start_goroutines (cfg : t) : list goroutine :=
  [StatusUpdater]
  ++ replicate (Z.to_nat (GetInt "workers.modules.parsers" cfg)) ParserWorker
  ++ replicate (Z.to_nat (GetInt "workers.modules.fetchers" cfg)) FetcherWorker
  ++ replicate (Z.to_nat (GetInt "workers.modules.builders" cfg)) BuilderWorker
  ++ replicate (Z.to_nat (GetInt "workers.modules.producers" cfg)) ProducerWorker
  ++ [Reader].

(** The keys [Start] reads the sizes of its pools from. *)
Definition pool_keys : list string :=
  ["workers.modules.parsers"; "workers.modules.fetchers"; "workers.modules.builders";
   "workers.modules.producers"].

(** What [connectDatabase] and [connectRedis] read. *)
Definition postgres_args (cfg : t) : Models.conn_args :=
  Models.mkArgs (GetString "postgres.host" cfg) (GetString "postgres.user" cfg)
                (GetInt "postgres.port" cfg) (GetString "postgres.sslMode" cfg)
                (GetString "postgres.dbname" cfg) (GetString "postgres.password" cfg).

Record redis_args : Type := mkRedisArgs {
  redisHost : string;
  redisPort : Z;
  redisPass : string;
  redisDB : Z;
  redisMaxPoolSize : Z
}.

Definition redis_args_of (cfg : t) : redis_args :=
  mkRedisArgs (GetString "redis.host" cfg) (GetInt "redis.port" cfg)
              (GetString "redis.password" cfg) (GetInt "redis.db" cfg)
              (GetInt "redis.maxPoolSize" cfg).

(** What [Configure] does to the outside, in order. *)
Inductive action : Type :=
| ReadConfig (path : string)
| ConnectPostgres (args : Models.conn_args)
| ConnectRedis (args : redis_args).

Section WithOutside.

(** The outside: [ReadInConfig] on a path gives what the file there and
    the environment provide, or fails; [models.GetDB] and
    [util.GetRedisClient] give a handle or fail; [uuid.NewV4] gives an id. *)
Variable DB RedisClient : Type.
Variable ReadInConfig : string -> option (gmap string setting).
Variable GetDB : Models.conn_args -> result DB.
Variable GetRedisClient : redis_args -> result RedisClient.
Variable NewV4 : string.

(** A worker as [Configure] leaves it. *)
Record configured : Type := mkConfigured {
  cw_ID : string;
  cw_Config : t;
  cw_channels : channels;
  cw_Db : DB;
  cw_RedisClient : RedisClient
}.

Inductive outcome : Type :=
| Configured (w : configured)
| Refused (err : string)
| Panicked (text : string).

(** [loadConfiguration] *)
Definition loadConfiguration (path : string) (cfg : t) : result t :=
  match ReadInConfig path with
  | Some file => Ok (mk file (defaults cfg))
  | None => Err ("Could not load configuration file from: " +:+ path)
  end.

(** [Configure], from [setConfigurationDefaults] to [connectRedis]; the
    two [ConfigureLogger] calls are left out. A panic ends it with the
    text of the panic. *)
Definition Configure (path : string) (cfg : t) : outcome * list action :=
  let cfg1 := setConfigurationDefaults cfg in
  match loadConfiguration path cfg1 with
  | Err text => (Panicked text, [ReadConfig path])
  | Ok cfg2 =>
      match createChannels cfg2 with
      | None => (Panicked "makechan: size out of range", [ReadConfig path])
      | Some chans =>
          match GetDB (postgres_args cfg2) with
          | Err _ =>
              (Panicked "Could not connect to postgres...",
               [ReadConfig path; ConnectPostgres (postgres_args cfg2)])
          | Ok db =>
              match GetRedisClient (redis_args_of cfg2) with
              | Err _ =>
                  (Panicked "Could not connect to redis...",
                   [ReadConfig path; ConnectPostgres (postgres_args cfg2);
                    ConnectRedis (redis_args_of cfg2)])
              | Ok cli =>
                  (Configured (mkConfigured NewV4 cfg2 chans db cli),
                   [ReadConfig path; ConnectPostgres (postgres_args cfg2);
                    ConnectRedis (redis_args_of cfg2)])
              end
          end
      end
  end.

(** [GetBatchPGWorker]: [config] is [worker.Config], [None] for nil. *)
Definition GetBatchPGWorker (path : string) (config : option t) : outcome * list action :=
  if decide (path = "") then (Refused "Invalid worker config", [])
  else Configure path (default New config).

End WithOutside.

(** A configuration file that defines nothing, and connections that
    always succeed. *)
Definition empty_file : string -> option (gmap string setting) := fun _ => Some ∅.
Definition any_db : Models.conn_args -> result unit := fun _ => Ok tt.
Definition any_redis : redis_args -> result unit := fun _ => Ok tt.

Arguments Configured {DB RedisClient} w.
Arguments cw_ID {DB RedisClient} c.
Arguments cw_Config {DB RedisClient} c.
Arguments cw_channels {DB RedisClient} c.
Arguments cw_Db {DB RedisClient} c.
Arguments cw_RedisClient {DB RedisClient} c.
Arguments Configure {DB RedisClient}.
Arguments GetBatchPGWorker {DB RedisClient}.
Arguments Refused {DB RedisClient} err.
Arguments Panicked {DB RedisClient} text.

End WorkerConfig.

(** ** The Zookeeper client of package [extensions] *)

Module Zookeeper.
Import Viper.

(** [KafkaInfo]; a variable of the type starts at the zero value. *)
Record KafkaInfo : Type := mkKafkaInfo {
  JmxPort : Z;
  Timestamp : Z;
  Endpoints : list string;
  Host : string;
  Version : Z;
  Port : Z
}.

Definition zero_KafkaInfo : KafkaInfo := mkKafkaInfo 0 0 [] "" 0 0.

(** [fmt.Sprintf("%s:%d", kafkaInfo.Host, kafkaInfo.Port)] *)
Definition address (info : KafkaInfo) : string := Host info +:+ ":" +:+ pretty (Port info).

(** [fmt.Sprintf("%s%s", "/brokers/ids/", id)] *)
Definition broker_path (id : string) : string := "/brokers/ids/" +:+ id.

Section WithConn.

(** The connection: [Conn.Children] and [Conn.Get] give the names of the
    children of a node and the data of a node, or fail. [json.Unmarshal]
    fills the target as far as it can and returns an error or nil. *)
Variable Children : string -> result (list string).
Variable Get : string -> result string.
Variable json_Unmarshal : string -> KafkaInfo -> KafkaInfo * option string.

(** The [range ids] loop of [GetKafkaBrokers]; [brokers] is the slice
    appended to. *)
Fixpoint range_ids (ids : list string) (brokers : list string) : result (list string) :=
  match ids with
  | [] => Ok brokers
  | id :: rest =>
      match Get (broker_path id) with
      | Err e => Err e
      | Ok info =>
          let kafkaInfo := fst (json_Unmarshal info zero_KafkaInfo) in
          range_ids rest (brokers ++ [address kafkaInfo])
      end
  end.

(** [GetKafkaBrokers] *)
Definition GetKafkaBrokers : result (list string) :=
  match Children "/brokers/ids" with
  | Err e => Err e
  | Ok ids => range_ids ids []
  end.

(** The address [GetKafkaBrokers] makes of the data of a node. *)
Definition address_of (info : string) : string :=
  address (fst (json_Unmarshal info zero_KafkaInfo)).

End WithConn.

Section WithZk.

(** [ReadInConfig] on a path gives what the file there and the
    environment provide, or fails; [zk.Connect] gives a connection to
    the hosts or fails. *)
Variable Conn : Type.
Variable ReadInConfig : string -> result (gmap string setting).
Variable zk_Connect : list string -> result Conn.

Record ZookeeperClient : Type := mkClient {
  Config : t;
  ConfigPath : string;
  zkConn : Conn
}.

(** [LoadConfiguration] on a fresh [viper.New()] *)
Definition LoadConfiguration (configPath : string) : result t :=
  match ReadInConfig configPath with
  | Err e => Err ("Fatal error config file: " +:+ e +:+ " " +:+ String "010"%char "")
  | Ok file => Ok (mk file (defaults New))
  end.

(** [LoadDefaults] *)
Definition LoadDefaults (cfg : t) : t :=
  SetDefault "workers.zookeeper.hosts" (SStrings ["localhost:9930"]) cfg.

(** [NewZookeeperClient]; beside the result, the host lists handed to
    [zk.Connect]. *)
Definition NewZookeeperClient (configPath : string)
  : result ZookeeperClient * list (list string) :=
  if decide (configPath = "") then
    (Err "No configPath passed to configure ZookeeperClient", [])
  else
    match LoadConfiguration configPath with
    | Err e => (Err e, [])
    | Ok cfg =>
        let cfg := LoadDefaults cfg in
        let zookeeperHosts := GetStringSlice "workers.zookeeper.hosts" cfg in
        match zk_Connect zookeeperHosts with
        | Err e => (Err e, [zookeeperHosts])
        | Ok conn => (Ok (mkClient cfg configPath conn), [zookeeperHosts])
        end
    end.

End WithZk.

Arguments Config {Conn} z.
Arguments ConfigPath {Conn} z.
Arguments zkConn {Conn} z.
Arguments mkClient {Conn}.
Arguments NewZookeeperClient {Conn}.

End Zookeeper.

(** * Properties *)

Lemma wrap64_id z : int64_range z -> wrap64 z = z.
Proof.
  unfold int64_range, wrap64. intros Hz.
  rewrite Z.mod_small by lia. lia.
Qed.

(** ** The database handle is a process-wide singleton *)

Module ModelsFacts.
Import Models.

Section GetDB.

Context {sqlDB : Type} (sql_Open : string -> string -> result sqlDB).

(** Once [_db] is set, [GetDB] returns it and touches nothing, whatever
    its arguments. *)
Lemma GetDB_cached a st d :
  _db st = Some d -> GetDB sql_Open a st = (Ok d, st).
Proof. intros Hdb. unfold GetDB. now rewrite Hdb. Qed.

(** A successful call leaves its result in [_db]. *)
Lemma GetDB_success_sets a st d st' :
  GetDB sql_Open a st = (Ok d, st') -> _db st' = Some d.
Proof.
  unfold GetDB. destruct (_db st) as [d0|] eqn:Hdb.
  - intros [= <- <-]. exact Hdb.
  - destruct (InitDb sql_Open a (opened st)) as [[d1|e] log]; intros [= <- <-]; reflexivity.
Qed.

(** A failed call leaves [_db] nil, so that the next call tries again. *)
Lemma GetDB_failure_leaves_nil a st e st' :
  GetDB sql_Open a st = (Err e, st') -> _db st' = None.
Proof.
  unfold GetDB. destruct (_db st) as [d0|] eqn:Hdb; [discriminate|].
  destruct (InitDb sql_Open a (opened st)) as [[d1|e1] log]; intros [= <- <-]; reflexivity.
Qed.

(** Only a call that finds [_db] nil opens a connection, and it opens
    exactly one, with its own arguments. *)
Lemma GetDB_opened a st :
  opened (snd (GetDB sql_Open a st)) =
  match _db st with
  | Some _ => opened st
  | None => opened st ++ [connStr a]
  end.
Proof.
  unfold GetDB, InitDb. destruct (_db st); [reflexivity|].
  destruct (sql_Open "postgres" (connStr a)); reflexivity.
Qed.

Lemma GetDB_calls_cached calls st d :
  _db st = Some d ->
  GetDB_calls sql_Open calls st = (map (fun _ => Ok d) calls, st).
Proof.
  intros Hdb. induction calls as [|a rest IH]; [reflexivity|].
  cbn [GetDB_calls map]. rewrite (GetDB_cached a st d Hdb), IH. reflexivity.
Qed.

(** C10. After a call of [GetDB] has succeeded with handle [d], every
    later call, whatever host, user, port, sslmode, database name and
    password it is given, returns that same [d] and leaves the package
    state as it is: [_db] keeps [d] and no further connection is opened. *)
Theorem GetDB_singleton first st d st1 :
  GetDB sql_Open first st = (Ok d, st1) ->
  forall later : list conn_args,
    GetDB_calls sql_Open later st1 = (map (fun _ => Ok d) later, st1).
Proof.
  intros Hfirst later. apply GetDB_calls_cached.
  exact (GetDB_success_sets first st d st1 Hfirst).
Qed.

End GetDB.

(** The production handle, once opened, is what a later request for the
    staging and the test database gets. *)
Lemma GetDB_singleton_witness :
  exists d st1,
    GetDB open_postgres production fresh = (Ok d, st1) /\
    opened st1 = [connStr production] /\
    GetDB_calls open_postgres [staging; mkArgs "localhost" "marathon_test" 5432 "disable" "marathon_test" ""] st1
    = ([Ok d; Ok d], st1).
Proof.
  eexists _, _. split; [reflexivity|]. split; [reflexivity|].
  apply (GetDB_singleton open_postgres production fresh _ _ eq_refl).
Defined.

End ModelsFacts.

(** ** The producer sends every message once *)

Module ProducerFacts.
Import Producer.

Section Loop.

Context {broker : Type}.
Variable NewSyncProducer : list string -> result broker.
Variable SendMessage : broker -> ProducerMessage -> broker * option string.

Lemma loop_sends p picks :
  map fst (sends (loop SendMessage p picks)) = map saramaMessage (received picks).
Proof.
  revert p. induction picks as [|pick rest IH]; intros p; [reflexivity|].
  destruct pick as [|[msg|]]; try reflexivity.
  cbn [loop received map].
  destruct (SendMessage p (saramaMessage msg)) as [p' [e|]];
    cbn [after_send sends map fst]; rewrite IH; reflexivity.
Qed.

Lemma loop_logs_failures p picks m e :
  (m, Some e) ∈ sends (loop SendMessage p picks) ->
  LogError "Error sending message" e ∈ logs (loop SendMessage p picks).
Proof.
  revert p. induction picks as [|pick rest IH]; intros p; cbn [loop].
  - cbn. intros H. inversion H.
  - destruct pick as [|[msg|]]; cbn; try (intros H; inversion H; fail).
    destruct (SendMessage p (saramaMessage msg)) as [p' [e'|]];
      cbn [after_send sends logs]; intros H; apply elem_of_cons in H as [H|H].
    + injection H as _ ->. apply list_elem_of_here.
    + apply list_elem_of_further. eauto.
    + discriminate.
    + apply list_elem_of_further. eauto.
Qed.

(** Every [SendMessage] call of the loop is followed by one log line,
    in the order of the calls: [Error sending message] with the error
    when the call failed, [Sent message] with the topic when it did not. *)
Lemma loop_logs p picks :
  logs (loop SendMessage p picks) = map send_log (sends (loop SendMessage p picks)).
Proof.
  revert p. induction picks as [|pick rest IH]; intros p; [reflexivity|].
  destruct pick as [|[msg|]]; try reflexivity.
  cbn [loop].
  destruct (SendMessage p (saramaMessage msg)) as [p' [e|]];
    cbn [after_send sends logs map]; rewrite IH; reflexivity.
Qed.

(** C6, as amended. [Producer] calls [SendMessage] exactly once for each
    message it receives, in the order received, whether the call fails
    or not (and not at all when the sync producer could not be
    created). Every failed call is logged as [Error sending message]
    with the error it returned, and the log has exactly one line per
    call, in the order of the calls, the line of a failed call being
    that error line: the message is given up and the loop goes on to
    the next one; there is no retry and no backoff. *)
Theorem Producer_sends_once brokers picks :
  let r := Producer NewSyncProducer SendMessage brokers picks in
  map fst (sends r) =
    match NewSyncProducer brokers with
    | Ok _ => map saramaMessage (received picks)
    | Err _ => []
    end /\
  (forall m e, (m, Some e) ∈ sends r ->
               LogError "Error sending message" e ∈ logs r) /\
  logs r =
    match NewSyncProducer brokers with
    | Ok _ => map send_log (sends r)
    | Err e => [LogError "Failed to start kafka producer" e]
    end.
Proof.
  unfold Producer. destruct (NewSyncProducer brokers) as [p|e0]; cbn zeta.
  - split; [apply loop_sends|]. split; [|apply loop_logs].
    intros m e H. eapply loop_logs_failures, H.
  - split; [reflexivity|]. split; [|reflexivity].
    cbn. intros m e H. inversion H.
Qed.

End Loop.

(** C6, as stated, fails. The cluster refuses one send and would accept
    the next; the message is sent once, the refusal is the only call made
    for it, and it is never delivered. *)
Lemma Producer_does_not_retry :
  ~ retries_failed_sends
      (Producer (flaky_new 1) flaky_send ["localhost:9092"] [Received (Some greeting)]).
Proof.
  intros H.
  specialize (H (mkProducerMessage "push-gcm_game" "{}")).
  assert (Hone : (1 < 1)%nat); [|lia].
  apply H. exists "kafka: leader not available". cbn. apply list_elem_of_here.
Qed.

End ProducerFacts.

(** ** The batch worker *)

Module WorkersFacts.
Import Workers.

(** *** Reading the limit *)

Lemma scan_limit_last modifiers : forall limit,
  Forall well_formed_modifier modifiers ->
  scan_limit limit modifiers = Some (default limit (last (limit_values modifiers))).
Proof.
  induction modifiers as [|modifier rest IH]; intros limit Hwf; [reflexivity|].
  apply Forall_cons in Hwf as [Hm Hrest].
  destruct modifier as [|key args]; [destruct Hm|].
  cbn [scan_limit]. unfold limit_values. cbn [omap limit_value].
  destruct (is_LIMIT key) eqn:Hkey.
  - destruct (Hm Hkey) as (n & more & ->).
    cbn [omap limit_value list_omap]. rewrite Hkey, IH by assumption.
    change (list_omap _ _ limit_value rest) with (limit_values rest).
    rewrite last_cons. destruct (last (limit_values rest)); reflexivity.
  - rewrite IH by assumption.
    destruct args as [|[n| |] more]; cbn [omap limit_value list_omap];
      rewrite ?Hkey; reflexivity.
Qed.

(** *** Running a computation *)

Lemma bind_ret {A B} (a : A) (k : A -> M B) w : bind (ret a) k w = k a w.
Proof. unfold bind, ret. destruct (k a w) as [[r w2] ev2]. reflexivity. Qed.

Lemma bind_get {B} (k : BatchPGWorker -> M B) w : bind get k w = k w w.
Proof. unfold bind, get. destruct (k w w) as [[r w2] ev2]. reflexivity. Qed.

Lemma bind_leave {A B} e (k : A -> M B) w : bind (leave e) k w = (Exit e, w, []).
Proof. reflexivity. Qed.

Lemma bind_emit {B} e (k : unit -> M B) w :
  bind (emit e) k w = ((k tt w).1.1, (k tt w).1.2, e :: (k tt w).2).
Proof. unfold bind, emit. destruct (k tt w) as [[r w2] ev2]. reflexivity. Qed.

Lemma bind_assign {B} f (k : unit -> M B) w :
  bind (assign f) k w = ((k tt (f w)).1.1, (k tt (f w)).1.2, Wrote (f w) :: (k tt (f w)).2).
Proof. unfold bind, assign. destruct (k tt (f w)) as [[r w2] ev2]. reflexivity. Qed.

Lemma bind_fatal {A B} text (k : A -> M B) w :
  bind (fatal text) k w = (Exit Fatal, w, [Logged "fatal" text]).
Proof. reflexivity. Qed.


(** *** What a computation logs *)

Section Emits.

Context (P : event -> Prop).

Lemma emits_ret {A} (a : A) : emits P (ret a).
Proof. intros w. constructor. Qed.

Lemma emits_get : emits P get.
Proof. intros w. constructor. Qed.

Lemma emits_leave {A} e : emits P (@leave A e).
Proof. intros w. constructor. Qed.

Lemma emits_emit e : P e -> emits P (emit e).
Proof. intros He w. repeat constructor. exact He. Qed.

Lemma emits_assign f : (forall w, P (Wrote w)) -> emits P (assign f).
Proof. intros Hw w. repeat constructor. apply Hw. Qed.

Lemma emits_bind {A B} (c : M A) (k : A -> M B) :
  emits P c -> (forall a, emits P (k a)) -> emits P (bind c k).
Proof.
  intros Hc Hk w. unfold bind. specialize (Hc w).
  destruct (c w) as [[[a|e] w1] ev1]; cbn in *; [|exact Hc].
  specialize (Hk a w1). destruct (k a w1) as [[r w2] ev2]; cbn in *.
  apply Forall_app; split; assumption.
Qed.

Lemma emits_fatal {A} text : P (Logged "fatal" text) -> emits P (@fatal A text).
Proof. intros H. apply emits_bind; [apply emits_emit, H | intros; apply emits_leave]. Qed.

End Emits.

Ltac emits_step :=
  first [ apply emits_ret | apply emits_get | apply emits_leave
        | apply emits_emit | apply emits_assign | apply emits_fatal
        | apply emits_bind; [|intros ?] ].

Section Reader.

Variable CountUserTokensByFilters :
  string -> string -> list (list value) -> list (list value) -> result Z.
Variable GetUserTokensBatchByFilters :
  string -> string -> list (list value) -> list (list value) -> result (list UserToken).
Variable json_Marshal : InputMessage -> result string.

Context (P : event -> Prop).
Hypothesis P_wrote : forall w, P (Wrote w).
Hypothesis P_send : forall s, P (Send s).
Hypothesis P_logged : forall level text, P (Logged level text).

Lemma emits_range userTokens : emits P (range_userTokens json_Marshal userTokens).
Proof.
  induction userTokens as [|u rest IH]; cbn [range_userTokens]; repeat emits_step; auto.
  match goal with |- context [json_Marshal ?m] => destruct (json_Marshal m) end;
    repeat emits_step; auto.
Qed.

Lemma emits_while fuel userTokens :
  emits P (while_ProcessedTokens json_Marshal fuel userTokens).
Proof.
  induction fuel as [|fuel IH]; cbn [while_ProcessedTokens]; repeat emits_step.
  - destruct (_ <? _); repeat emits_step.
  - destruct (_ <? _); repeat emits_step; auto using emits_range.
Qed.

Lemma emits_page_loop fuel filters modifiers :
  (forall app service, P (Select app service filters modifiers)) ->
  emits P (page_loop GetUserTokensBatchByFilters json_Marshal fuel filters modifiers).
Proof.
  intros P_select.
  induction fuel as [|fuel IH]; cbn [page_loop]; repeat emits_step.
  - destruct (_ <? _); repeat emits_step.
  - destruct (_ <? _); repeat emits_step; auto.
    match goal with |- context [GetUserTokensBatchByFilters ?a ?b ?c ?d] =>
      destruct (GetUserTokensBatchByFilters a b c d) end;
      repeat (first [apply emits_while | emits_step]); auto.
Qed.

Lemma emits_pgReader filters modifiers :
  (forall app service, P (Count app service filters modifiers)) ->
  (forall app service, P (Select app service filters modifiers)) ->
  emits P (pgReader CountUserTokensByFilters GetUserTokensBatchByFilters json_Marshal
                    filters modifiers).
Proof.
  intros P_count P_select. unfold pgReader.
  destruct (scan_limit (-1) modifiers) as [limit|]; [|emits_step].
  destruct (limit <=? 0); repeat emits_step; auto.
  match goal with |- context [CountUserTokensByFilters ?a ?b ?c ?d] =>
    destruct (CountUserTokensByFilters a b c d) as [n|e] end;
    repeat emits_step; auto.
  destruct (n <? 0); repeat emits_step; auto using emits_page_loop.
Qed.

End Reader.

Lemma selects_queried_with modifiers events :
  Forall (queried_with modifiers) events -> Forall (eq modifiers) (selects events).
Proof.
  induction 1 as [|e events He _ IH]; [constructor|].
  destruct e; cbn; try exact IH. constructor; [symmetry; exact He | exact IH].
Qed.

Section Paging.

Variable CountUserTokensByFilters :
  string -> string -> list (list value) -> list (list value) -> result Z.
Variable GetUserTokensBatchByFilters :
  string -> string -> list (list value) -> list (list value) -> result (list UserToken).
Variable json_Marshal : InputMessage -> result string.

(** Every page is fetched with the very modifiers [pgReader] was called
    with, whatever the store, the job and the page: the reader never
    adds an offset to a query. *)
Theorem pgReader_selects filters modifiers w :
  Forall (eq modifiers) (selects (pgReader CountUserTokensByFilters GetUserTokensBatchByFilters json_Marshal
     filters modifiers w).2).
Proof.
  apply selects_queried_with.
  apply (emits_pgReader _ _ _ (queried_with modifiers)); cbn; auto.
Qed.


Lemma pages_of_quotient T limit :
  0 < limit -> 0 <= T < 2 ^ 63 - 1 -> pages_of T limit = T / limit + 1.
Proof.
  intros Hl HT. unfold pages_of. rewrite Z.quot_div_nonneg by lia.
  assert (0 <= T / limit <= T).
  { split; [apply Z.div_pos; lia|]. apply Z.div_le_upper_bound; nia. }
  apply wrap64_id. unfold int64_range. lia.
Qed.

Lemma pages_of_positive T limit :
  0 < limit -> 0 <= T < 2 ^ 63 - 1 -> 1 <= pages_of T limit < 2 ^ 63.
Proof.
  intros Hl HT. rewrite pages_of_quotient by assumption.
  assert (0 <= T / limit <= T); [|lia].
  split; [apply Z.div_pos; lia|]. apply Z.div_le_upper_bound; nia.
Qed.

(** The number of pages is the ceiling of [T / limit] exactly when
    [limit] does not divide [T]; when it does, it is one more. The one
    count left out, [2 ^ 63 - 1], is where [T / limit + 1] can leave
    [int64]. *)
Theorem pages_of_ceiling T limit :
  0 < limit -> 0 <= T < 2 ^ 63 - 1 ->
  (T mod limit <> 0 -> pages_of T limit = (T + limit - 1) / limit) /\
  (T mod limit = 0 -> pages_of T limit = (T + limit - 1) / limit + 1).
Proof.
  intros Hl HT. rewrite pages_of_quotient by assumption.
  pose proof (Z.div_mod T limit ltac:(lia)) as Hdm.
  pose proof (Z.mod_pos_bound T limit Hl) as Hmod.
  split; intros Hrem.
  - apply (Z.div_unique _ _ _ (T mod limit - 1)); lia.
  - f_equal. apply (Z.div_unique _ _ _ (limit - 1)); lia.
Qed.



End Paging.

(** 1250 is no multiple of 500, 1000 is. *)
Lemma pages_of_ceiling_witness :
  pages_of 1250 500 = (1250 + 500 - 1) / 500 /\
  pages_of 1000 500 = (1000 + 500 - 1) / 500 + 1.
Proof.
  split.
  - apply (pages_of_ceiling 1250 500); [lia | lia | discriminate].
  - apply (pages_of_ceiling 1000 500); [lia | lia | reflexivity].
Defined.


(** C1 fails on the code. Three matching tokens, pages of two: both
    fetches are issued with [LIMIT 2] alone, the store answers both with
    the first two rows, and the reader sends these twice; the third token
    is never sent. *)
Theorem pgReader_refetches_first_page :
  let run := pgReader (table_count (tokens 3)) (table_select (tokens 3)) marshal_message
                      [] (limit_of 2) (new_worker (limit_of 2)) in
  run.1.1 = Exit (Return None) /\
  selects run.2 = [limit_of 2; limit_of 2] /\
  sent run.2 = map (fun u => render_message (with_user u job)) (tokens 2 ++ tokens 2).
Proof. vm_compute. repeat split. Qed.

(** C2 fails on the code. A thousand tokens in pages of five hundred:
    the reader sets [TotalPages] to three, where [1000 / 500] is two. *)
Theorem TotalPages_exact_multiple :
  let run := pgReader (table_count (tokens 1000)) (table_select (tokens 1000)) marshal_message
                      [] (limit_of 500) (new_worker (limit_of 500)) in
  TotalTokens run.1.2 = 1000 /\ TotalPages run.1.2 = 3 /\ 1000 / 500 = 2.
Proof. vm_compute. repeat split. Qed.

(** C3 fails on the code. Between two successive writes of the run an
    observer can see [ProcessedTokens] fall: the reader sets it back to
    zero when it starts on the next page. *)
Theorem ProcessedTokens_falls :
  let w0 := new_worker (limit_of 2) in
  let run := Start (table_count (tokens 3)) (table_select (tokens 3)) marshal_message 1478000000 w0 in
  exists (i j : nat) w1 w2,
    (i < j)%nat /\
    history w0 run.2 !! i = Some w1 /\ history w0 run.2 !! j = Some w2 /\
    ProcessedTokens w2 < ProcessedTokens w1.
Proof.
  exists 13%nat, 14%nat. eexists _, _.
  split; [lia|]. split; [vm_compute; reflexivity|]. split; [vm_compute; reflexivity|].
  vm_compute. reflexivity.
Qed.

(** C4 fails on the code. Scenario S6: 1250 matching tokens, pages of
    500. [TotalPages] and [ProcessedPages] end at 3 as expected, but the
    reader sends 1500 records, the first 500 tokens three times over, and
    [ProcessedTokens] ends at 500. *)
Theorem expansion_1250_by_500 :
  let w0 := new_worker (limit_of 500) in
  let '(r, w, log) :=
    Start (table_count (tokens 1250)) (table_select (tokens 1250)) marshal_message 1478000000 w0 in
  r = Exit (Return None) /\
  TotalTokens w = 1250 /\ TotalPages w = 3 /\ ProcessedPages w = 3 /\
  ProcessedTokens w = 500 /\
  length (sent log) = 1500%nat /\
  sent log = map (fun u => render_message (with_user u job))
                 (tokens 500 ++ tokens 500 ++ tokens 500).
Proof. vm_compute. repeat split. Qed.

(** *** A logic of runs: fuel and counters *)

Section Runs.

Context (R : relation BatchPGWorker).

Lemma follows_app w log1 w1 log2 w2 :
  follows R w log1 w1 -> follows R w1 log2 w2 -> follows R w (log1 ++ log2) w2.
Proof.
  induction 1 as [w|w wa log w' Hstep _ IH|w e log w' He _ IH]; intros H2; cbn [app].
  - exact H2.
  - apply follows_wrote; auto.
  - apply follows_other; auto.
Qed.

Lemma runs_ret {A} (a : A) w (Q : A -> BatchPGWorker -> Prop) :
  Q a w -> runs R (ret a) w Q.
Proof. intros HQ. split; [constructor|exact HQ]. Qed.

Lemma runs_leave {A} e w (Q : A -> BatchPGWorker -> Prop) :
  e <> OutOfFuel -> runs R (leave e) w Q.
Proof. intros He. split; [constructor|exact He]. Qed.

Lemma runs_bind {A B} (c : M A) (k : A -> M B) w Q1 Q2 :
  runs R c w Q1 ->
  (forall a w1, Q1 a w1 -> runs R (k a) w1 Q2) ->
  runs R (bind c k) w Q2.
Proof.
  intros [Hlog Hc] Hk. unfold runs, bind.
  destruct (c w) as [[[a|e] w1] ev1]; cbn in *.
  - destruct (Hk a w1 Hc) as [Hlog2 Hk2].
    destruct (k a w1) as [[r w2] ev2]; cbn in *.
    split; [eapply follows_app; eassumption|exact Hk2].
  - split; assumption.
Qed.

Lemma runs_get {B} (k : BatchPGWorker -> M B) w Q :
  runs R (k w) w Q -> runs R (bind get k) w Q.
Proof. unfold runs. now rewrite bind_get. Qed.

Lemma runs_emit {B} e (k : unit -> M B) w Q :
  (forall w1, e <> Wrote w1) -> runs R (k tt) w Q -> runs R (bind (emit e) k) w Q.
Proof.
  intros He [Hlog Hk]. unfold runs. rewrite bind_emit. cbn [fst snd].
  split; [apply follows_other; assumption|exact Hk].
Qed.

Lemma runs_assign {B} f (k : unit -> M B) w Q :
  R w (f w) -> runs R (k tt) (f w) Q -> runs R (bind (assign f) k) w Q.
Proof.
  intros Hstep [Hlog Hk]. unfold runs. rewrite bind_assign. cbn [fst snd].
  split; [apply follows_wrote; assumption|exact Hk].
Qed.

Lemma runs_fatal {A} text w (Q : A -> BatchPGWorker -> Prop) : runs R (fatal text) w Q.
Proof.
  split; cbn; [|discriminate].
  apply follows_other; [discriminate|constructor].
Qed.

Lemma runs_weaken {A} (c : M A) w (Q Q' : A -> BatchPGWorker -> Prop) :
  runs R c w Q -> (forall a w', Q a w' -> Q' a w') -> runs R c w Q'.
Proof.
  intros [Hlog Hc] HQ. split; [exact Hlog|].
  destruct ((c w).1.1); auto.
Qed.

Hypothesis R_token : forall t w, R w (set_Message (set_Token t (Message w)) w).
Hypothesis R_locale : forall l w, R w (set_Message (set_Locale l (Message w)) w).
Hypothesis R_tokens : forall n w, R w (set_ProcessedTokens n w).
Hypothesis R_next_page : forall w, R w (set_ProcessedPages (ProcessedPages w + 1) w).

Variable CountUserTokensByFilters :
  string -> string -> list (list value) -> list (list value) -> result Z.
Variable GetUserTokensBatchByFilters :
  string -> string -> list (list value) -> list (list value) -> result (list UserToken).
Variable json_Marshal : InputMessage -> result string.

Lemma runs_range userTokens : forall w,
  runs R (range_userTokens json_Marshal userTokens) w
    (fun _ w' => ProcessedTokens w' = ProcessedTokens w + Z.of_nat (length userTokens)
                 /\ same_page w w').
Proof.
  induction userTokens as [|u rest IH]; intros w; cbn [range_userTokens].
  - apply runs_ret. cbn [length]. split; [lia|split; reflexivity].
  - apply runs_assign; [apply R_token|]. apply runs_assign; [apply R_locale|].
    apply runs_get.
    destruct (json_Marshal _) as [strMsg|e].
    + apply runs_emit; [discriminate|]. apply runs_assign; [apply R_tokens|].
      eapply runs_weaken; [apply IH|]. cbn. intros _ w' [Htok [Hp Ht]].
      split; [cbn [length]; lia|split; assumption].
    + apply runs_emit; [discriminate|]. apply runs_leave. discriminate.
Qed.

Lemma runs_while userTokens w :
  ProcessedTokens w = 0 ->
  runs R (while_ProcessedTokens json_Marshal 1 userTokens) w (fun _ w' => same_page w w').
Proof.
  intros Hzero. cbn [while_ProcessedTokens]. apply runs_get.
  destruct (Z.ltb_spec (ProcessedTokens w) (Z.of_nat (length userTokens))).
  - eapply runs_bind; [apply runs_range|].
    cbn beta. intros _ w1 [Htok Hsame]. apply runs_get.
    destruct (Z.ltb_spec (ProcessedTokens w1) (Z.of_nat (length userTokens))); [lia|].
    apply runs_ret. exact Hsame.
  - apply runs_ret. split; reflexivity.
Qed.

Lemma runs_page_loop filters modifiers fuel : forall w,
  TotalPages w - ProcessedPages w <= Z.of_nat fuel ->
  runs R (page_loop GetUserTokensBatchByFilters json_Marshal fuel filters modifiers) w
    (fun _ _ => True).
Proof.
  induction fuel as [|fuel IH]; intros w Hfuel; cbn [page_loop]; apply runs_get.
  - destruct (Z.ltb_spec (ProcessedPages w) (TotalPages w)); [lia|].
    now apply runs_ret.
  - destruct (Z.ltb_spec (ProcessedPages w) (TotalPages w)); [|now apply runs_ret].
    apply runs_emit; [discriminate|].
    destruct (GetUserTokensBatchByFilters _ _ _ _) as [userTokens|e].
    + apply runs_assign; [apply R_tokens|].
      eapply runs_bind; [apply runs_while; reflexivity|].
      cbn beta. intros _ w1 [Hp Ht]. apply runs_assign; [apply R_next_page|].
      apply IH. cbn in *. lia.
    + apply runs_emit; [discriminate|]. apply runs_leave. discriminate.
Qed.

Lemma runs_pgReader filters modifiers w :
  (forall T,
     CountUserTokensByFilters (App (Message w)) (Service (Message w)) filters modifiers = Ok T ->
     R w (set_TotalTokens T w) /\
     forall limit, 0 < limit -> 0 <= T ->
       let w1 := set_TotalTokens T (set_TotalTokens T w) in
       let w2 := set_TotalPages (pages_of T limit) w1 in
       R (set_TotalTokens T w) w1 /\ R w1 w2 /\ R w2 (set_ProcessedPages 0 w2)) ->
  runs R (pgReader CountUserTokensByFilters GetUserTokensBatchByFilters json_Marshal
                   filters modifiers) w (fun _ _ => True).
Proof.
  intros Hinit. unfold pgReader.
  destruct (scan_limit (-1) modifiers) as [limit|]; [|apply runs_leave; discriminate].
  destruct (Z.leb_spec limit 0); [apply runs_fatal|].
  apply runs_get. apply runs_emit; [discriminate|].
  destruct (CountUserTokensByFilters _ _ _ _) as [T|e] eqn:HT; [|apply runs_fatal].
  destruct (Hinit T eq_refl) as [H1 Hrest].
  apply runs_assign; [exact H1|].
  destruct (Z.ltb_spec T 0); [apply runs_fatal|].
  destruct (Hrest limit ltac:(lia) ltac:(lia)) as (H2 & H3 & H4).
  apply runs_assign; [exact H2|]. apply runs_assign; [exact H3|].
  apply runs_assign; [exact H4|].
  eapply runs_bind; [apply runs_page_loop; cbn; lia|].
  intros _ w1 _. apply runs_leave. discriminate.
Qed.

End Runs.

Lemma history_wrote w w1 log : history w (Wrote w1 :: log) = w :: history w1 log.
Proof. reflexivity. Qed.

Lemma history_other w e log :
  (forall w1, e <> Wrote w1) -> history w (e :: log) = history w log.
Proof. intros He. destruct e; try reflexivity. now contradiction (He w0). Qed.

Lemma follows_sorted (R : relation BatchPGWorker) `{!Reflexive R, !Transitive R} w log w' :
  follows R w log w' -> StronglySorted R (history w log).
Proof.
  induction 1 as [w|w w1 log w' Hstep _ IH|w e log w' He _ IH].
  - repeat constructor.
  - rewrite history_wrote. constructor; [exact IH|].
    unfold history in IH |- *. apply StronglySorted_inv in IH as [_ Hall].
    constructor; [exact Hstep|].
    eapply Forall_impl; [exact Hall|]. intros b Hb. cbn beta in Hb. etransitivity; eassumption.
  - now rewrite history_other.
Qed.

Lemma StronglySorted_lookup {A} (R : relation A) (l : list A) :
  StronglySorted R l ->
  forall (i j : nat) a b, (i < j)%nat -> l !! i = Some a -> l !! j = Some b -> R a b.
Proof.
  induction 1 as [|x l _ IH Hall]; intros i j a b Hlt Hi Hj; [discriminate|].
  destruct j as [|j]; [lia|]. cbn in Hj.
  destruct i as [|i]; cbn in Hi.
  - injection Hi as ->. rewrite Forall_forall in Hall. apply Hall.
    eapply list_elem_of_lookup_2, Hj.
  - eapply IH; [|eassumption|eassumption]. lia.
Qed.

#[local] Instance counters_le_refl : Reflexive counters_le.
Proof. intros w. unfold counters_le. lia. Qed.

#[local] Instance counters_le_trans : Transitive counters_le.
Proof. intros a b c. unfold counters_le. lia. Qed.

Section Fuel.

Variable CountUserTokensByFilters :
  string -> string -> list (list value) -> list (list value) -> result Z.
Variable GetUserTokensBatchByFilters :
  string -> string -> list (list value) -> list (list value) -> result (list UserToken).
Variable json_Marshal : InputMessage -> result string.

(** The fuel the model gives the loops of [pgReader] is enough: no run
    ends for want of it, whatever the store answers. *)
Theorem pgReader_fuel_suffices filters modifiers w :
  (pgReader CountUserTokensByFilters GetUserTokensBatchByFilters json_Marshal
            filters modifiers w).1.1 <> Exit OutOfFuel.
Proof.
  assert (Hruns : runs (fun _ _ => True)
            (pgReader CountUserTokensByFilters GetUserTokensBatchByFilters json_Marshal
                      filters modifiers) w (fun _ _ => True)).
  { apply runs_pgReader; cbn; auto. }
  destruct Hruns as [_ Hend].
  destruct (_.1.1) as [a|e]; [discriminate|]. congruence.
Qed.

(** On a worker whose counters start at zero and a store whose count is
    a count, [TotalTokens], [TotalPages] and [ProcessedPages] never
    decrease from one write of the run to a later one. *)
Theorem page_counters_never_decrease now w :
  TotalTokens w = 0 -> TotalPages w = 0 -> ProcessedPages w = 0 ->
  (forall T,
     CountUserTokensByFilters (App (Message w)) (Service (Message w))
                              (Filters w) (Modifiers w) = Ok T ->
     0 <= T < 2 ^ 63 - 1) ->
  let log := (Start CountUserTokensByFilters GetUserTokensBatchByFilters json_Marshal now w).2 in
  forall (i j : nat) a b,
    (i < j)%nat -> history w log !! i = Some a -> history w log !! j = Some b ->
    TotalTokens a <= TotalTokens b /\
    TotalPages a <= TotalPages b /\
    ProcessedPages a <= ProcessedPages b.
Proof.
  intros Htokens Hpages Hprocessed Hcount log.
  assert (Hruns : runs counters_le
            (Start CountUserTokensByFilters GetUserTokensBatchByFilters json_Marshal now)
            w (fun _ _ => True)).
  { unfold Start. apply runs_assign; [unfold counters_le; cbn; lia|]. apply runs_get.
    apply runs_pgReader; try (intros; unfold counters_le; cbn; lia).
    cbn [Message Filters Modifiers set_StartedAt]. intros T HT.
    specialize (Hcount T HT).
    split; [unfold counters_le; cbn; lia|].
    intros limit Hlimit _.
    pose proof (pages_of_positive T limit Hlimit Hcount).
    unfold counters_le; cbn. lia. }
  destruct Hruns as [Hfollows _].
  apply follows_sorted in Hfollows; [|apply _..].
  exact (StronglySorted_lookup counters_le _ Hfollows).
Qed.

End Fuel.

(** Three tokens in pages of two: the fields before the run against the
    fields after its last write. *)
Lemma page_counters_never_decrease_witness :
  let w0 := new_worker (limit_of 2) in
  let log := (Start (table_count (tokens 3)) (table_select (tokens 3)) marshal_message
                    1478000000 w0).2 in
  exists a b,
    history w0 log !! 0%nat = Some a /\ history w0 log !! 21%nat = Some b /\
    TotalTokens a <= TotalTokens b /\
    TotalPages a <= TotalPages b /\
    ProcessedPages a <= ProcessedPages b.
Proof.
  cbv zeta. eexists _, _.
  split; [vm_compute; reflexivity|]. split; [vm_compute; reflexivity|].
  apply (page_counters_never_decrease
           (table_count (tokens 3)) (table_select (tokens 3)) marshal_message
           1478000000 (new_worker (limit_of 2)) eq_refl eq_refl eq_refl)
    with (i := 0%nat) (j := 21%nat).
  - intros T [= <-]. cbn. lia.
  - lia.
  - vm_compute. reflexivity.
  - vm_compute. reflexivity.
Defined.

(** *** Status reporting *)

Lemma redisKey_pipe w : redisKey w = NotifierID w +:+ "|" +:+ ID w.
Proof. reflexivity. Qed.


Lemma GetStatus_counters w :
  GetStatus w !! "totalTokens" = Some (Int64 (TotalTokens w)) /\
  GetStatus w !! "processedTokens" = Some (Int (ProcessedTokens w)) /\
  GetStatus w !! "totalPages" = Some (Int64 (TotalPages w)) /\
  GetStatus w !! "processedPages" = Some (Int64 (ProcessedPages w)).
Proof. unfold GetStatus. repeat split; by simplify_map_eq. Qed.

Section Status.

Context {redis : Type}.
Variable redis_Set : redis -> string -> string -> redis * option string.
Variable json_Marshal : gmap string status_value -> result string.

(** C5, as amended. When the write to the store fails, [SetStatus]
    leaves through zap's [Panic]: the failure is logged at panic level
    and the goroutine panics. [updateStatus] does not survive it: no
    later status is written. *)
Theorem SetStatus_write_failure_panics w cli strStatus cli' e :
  json_Marshal (GetStatus w) = Ok strStatus ->
  redis_Set cli (redisKey w) strStatus = (cli', Some e) ->
  SetStatus redis_Set json_Marshal w cli
    = (StatusPanic "Failed to set notification key in redis", cli') /\
  forall later,
    updateStatus redis_Set json_Marshal (Default w :: later) cli
    = (UpdaterPanicked "Failed to set notification key in redis", cli', O).
Proof.
  intros Hjson Hset.
  assert (Hpanic : SetStatus redis_Set json_Marshal w cli
                   = (StatusPanic "Failed to set notification key in redis", cli')).
  { unfold SetStatus. now rewrite Hjson, Hset. }
  split; [exact Hpanic|]. intros later. cbn [updateStatus]. now rewrite Hpanic.
Qed.

End Status.

(** With redis unreachable the first status write ends the updater. *)
Lemma SetStatus_write_failure_panics_witness :
  SetStatus Redis_Set marshal_status (new_worker (limit_of 500)) redis_down
    = (StatusPanic "Failed to set notification key in redis", redis_down) /\
  forall later,
    updateStatus Redis_Set marshal_status (Default (new_worker (limit_of 500)) :: later) redis_down
    = (UpdaterPanicked "Failed to set notification key in redis", redis_down, O).
Proof.
  apply (SetStatus_write_failure_panics Redis_Set marshal_status
           (new_worker (limit_of 500)) redis_down _ redis_down _ eq_refl eq_refl).
Defined.

(** C5, as stated, fails: with redis unreachable [SetStatus] does not
    return. *)
Lemma SetStatus_panics_when_redis_is_down :
  ~ survives_write_failure Redis_Set marshal_status (new_worker (limit_of 500)) redis_down.
Proof.
  intros H. specialize (H _ eq_refl).
  assert (Hset : (SetStatus Redis_Set marshal_status (new_worker (limit_of 500)) redis_down).1
                 = StatusSet) by (apply H; cbn; discriminate).
  discriminate Hset.
Qed.



End WorkersFacts.

(** ** Decoding a batch job *)

Module WorkerUtilFacts.
Import WorkerUtil.

Lemma wrong_length arr :
  length arr <> 8%nat -> ParseProcessBatchWorkerMessageArray arr = Failed InvalidMessageArray.
Proof.
  intros Hlen.
  do 9 (destruct arr as [|? arr]; [try reflexivity|]); [|reflexivity].
  now contradict Hlen.
Qed.

Lemma hex_run_length n : forall s rest,
  hex_run n s = Some rest -> String.length s = (n + String.length rest)%nat.
Proof.
  induction n as [|n IH]; intros s rest; cbn [hex_run].
  - now intros [= ->].
  - destruct s as [|c s]; [discriminate|].
    destruct (is_hex c); [|discriminate].
    intros H. cbn [String.length]. rewrite (IH _ _ H). reflexivity.
Qed.

Lemma is_uuid_length s : is_uuid s = true -> String.length s = 36%nat.
Proof.
  unfold is_uuid. cbn [hex_groups].
  repeat (let r := fresh "r" in let H := fresh "H" in
          destruct (hex_run _ _) as [r|] eqn:H; [|discriminate];
          apply hex_run_length in H; rewrite H; clear H;
          try (destruct r as [|[[] [] [] [] [] [] [] []] r]; try discriminate; cbn [String.length])).
  intros H. apply bool_decide_eq_true in H. subst. reflexivity.
Qed.

Lemma uuid_FromString_valid s :
  is_uuid s = true -> uuid_FromString s = Ok (map_string lower_hex s).
Proof.
  intros H. unfold uuid_FromString. rewrite (is_uuid_length s H), H. reflexivity.
Qed.

Lemma uuid_FromString_invalid s :
  is_uuid s = false -> exists e, uuid_FromString s = Err e /\ mentions "uuid" e.
Proof.
  intros H. unfold uuid_FromString. rewrite H.
  destruct (_ <? _)%nat; eexists; (split; [reflexivity|]).
  - exists "", (": UUID string too short: " +:+ s). reflexivity.
  - exists "", ": invalid string format". reflexivity.
Qed.

Lemma lower_hex_id c : is_upper_hex c = false -> lower_hex c = c.
Proof. unfold lower_hex. now intros ->. Qed.

Lemma map_string_lower_case s : lower_case s = true -> map_string lower_hex s = s.
Proof.
  induction s as [|c s IH]; [reflexivity|].
  unfold lower_case. cbn [all_chars map_string]. intros [Hc Hs]%andb_prop.
  rewrite lower_hex_id by now apply negb_true_iff. now rewrite IH.
Qed.

Lemma string_map_entries m : string_map (string_entries m) = Some (list_to_map m).
Proof.
  unfold string_map.
  match goal with |- _ <$> ?decoded = _ => assert (H : decoded = Some m) end.
  { apply mapM_Some. unfold string_entries.
    induction m as [|[k v] m IH]; constructor; [reflexivity|exact IH]. }
  now rewrite H.
Qed.

Lemma decode_template_obj body defaults :
  decode_template [("body", DMap (string_entries body)); ("defaults", DMap (string_entries defaults))]
  = Some (mkTemplate (list_to_map body) (list_to_map defaults)).
Proof.
  unfold decode_template, map_field, entries_map. cbn [list_to_map foldr fst snd].
  rewrite lookup_insert_eq, string_map_entries. cbn.
  rewrite lookup_insert_ne by done. rewrite lookup_insert_eq, string_map_entries.
  reflexivity.
Qed.

Lemma decode_user_obj u : decode_user (user_obj u) = Some u.
Proof.
  unfold decode_user, user_obj, string_field, entries_map. cbn [list_to_map foldr fst snd].
  rewrite lookup_insert_eq. cbn.
  rewrite lookup_insert_ne by done. rewrite lookup_insert_eq. cbn. now destruct u.
Qed.

Lemma decode_users_obj users : decode_users (map user_obj users) = Some users.
Proof.
  unfold decode_users. apply mapM_Some.
  induction users as [|u users IH]; constructor; [apply decode_user_obj|exact IH].
Qed.

(** C8. An array that does not have exactly eight positions fails with
    [InvalidMessageArray]. On an array that has them, each of its kind:
    a job id that is no UUID fails with an error that mentions [uuid]; an
    empty users array fails with [there must be at least one user];
    otherwise the call succeeds and the message holds the job id (in the
    text [String()] prints, which is the text given when that is in lower
    case), the app name, the service, the template's body and defaults,
    the context, the metadata, the users and the expiry as given. *)
Theorem ParseProcessBatchWorkerMessageArray_spec :
  (forall arr, length arr <> 8%nat ->
               ParseProcessBatchWorkerMessageArray arr = Failed InvalidMessageArray) /\
  forall jobIDStr appName service body defaults ctx meta users expiresAt,
    let arr := message_array jobIDStr appName service body defaults ctx meta users expiresAt in
    (is_uuid jobIDStr = false ->
       exists e, ParseProcessBatchWorkerMessageArray arr = Failed e /\ mentions "uuid" e) /\
    (is_uuid jobIDStr = true -> users = [] ->
       ParseProcessBatchWorkerMessageArray arr = Failed "there must be at least one user") /\
    (is_uuid jobIDStr = true -> users <> [] ->
       ParseProcessBatchWorkerMessageArray arr =
         Parsed (mkBatchWorkerMessage
                   (map_string lower_hex jobIDStr) appName service
                   (mkTemplate (list_to_map body) (list_to_map defaults))
                   (list_to_map ctx) (list_to_map meta) users expiresAt) /\
       (lower_case jobIDStr = true -> map_string lower_hex jobIDStr = jobIDStr)).
Proof.
  split; [exact wrong_length|].
  intros jobIDStr appName service body defaults ctx meta users expiresAt arr.
  subst arr. unfold message_array, template_obj.
  cbn [ParseProcessBatchWorkerMessageArray].
  rewrite decode_template_obj, decode_users_obj.
  split; [|split].
  - intros Hbad. destruct (uuid_FromString_invalid _ Hbad) as (e & -> & He). eauto.
  - intros Hok ->. now rewrite (uuid_FromString_valid _ Hok).
  - intros Hok Hne. rewrite (uuid_FromString_valid _ Hok).
    split; [|apply map_string_lower_case].
    destruct users; [contradiction|reflexivity].
Qed.

(** The test's cases: one position short, one too many, a job id that is
    no UUID, no users, and the well-formed array. *)
Lemma ParseProcessBatchWorkerMessageArray_witness :
  ParseProcessBatchWorkerMessageArray (removelast (arr_for jobID users))
    = Failed InvalidMessageArray /\
  ParseProcessBatchWorkerMessageArray (arr_for jobID users ++ [DInt64 expiresAt])
    = Failed InvalidMessageArray /\
  (exists e, ParseProcessBatchWorkerMessageArray (arr_for "some-string" users) = Failed e /\
             mentions "uuid" e) /\
  ParseProcessBatchWorkerMessageArray (arr_for jobID [])
    = Failed "there must be at least one user" /\
  ParseProcessBatchWorkerMessageArray (arr_for jobID users)
    = Parsed (mkBatchWorkerMessage jobID "d2f1c4a9" "7c1e0b3a"
                (mkTemplate (list_to_map body) (list_to_map defaults))
                (list_to_map context) (list_to_map metadata) users expiresAt).
Proof.
  destruct ParseProcessBatchWorkerMessageArray_spec as [Hlength Hshape].
  specialize (Hshape jobID "d2f1c4a9" "7c1e0b3a" body defaults context metadata) as Hgood.
  specialize (Hshape "some-string" "d2f1c4a9" "7c1e0b3a" body defaults context metadata users
                expiresAt) as (Hbad & _).
  split; [apply Hlength; cbn; lia|].
  split; [apply Hlength; cbn; lia|].
  split; [apply Hbad; reflexivity|].
  split; [apply (Hgood [] expiresAt); reflexivity|].
  apply (Hgood users expiresAt); [reflexivity|discriminate].
Defined.

End WorkerUtilFacts.

(** ** The test handles and sequences of [GetDB] calls *)

Module ModelsHelpersFacts.
Import Models ModelsFacts ModelsHelpers.

Section Calls.

Context {sqlDB : Type} (sql_Open : string -> string -> result sqlDB).

Lemma errors_all_ok {A B} (d : A) (l : list B) : errors ((fun _ => Ok d) <$> l) = [].
Proof. induction l as [|x l IH]; [reflexivity|exact IH]. Qed.

Lemma handles_all_ok {A B} (d : A) (l : list B) :
  handles ((fun _ => Ok d) <$> l) = (fun _ => d) <$> l.
Proof. induction l as [|x l IH]; [reflexivity|]. cbn. now rewrite <- IH. Qed.

Lemma GetDB_log a st :
  opened (GetDB sql_Open a st).2 =
  match _db st with
  | Some _ => opened st
  | None => opened st ++ [connStr a]
  end.
Proof.
  unfold GetDB, InitDb. destruct (_db st); [reflexivity|].
  destruct (sql_Open "postgres" (connStr a)); reflexivity.
Qed.

(** Any sequence of [GetDB] calls, from any package state, gives failures
    first and then successes: once a call has succeeded no later call
    fails. All the successes return one and the same handle, the one
    [_db] holds at the end. From a nil [_db], [sql.Open] is called once
    for each failure and once more if any call succeeded; from a set
    [_db], never. *)
Theorem GetDB_calls_shape calls : forall st,
  let results := (GetDB_calls sql_Open calls st).1 in
  let st' := (GetDB_calls sql_Open calls st).2 in
  results = (Err <$> errors results) ++ (Ok <$> handles results) /\
  Forall (fun d => _db st' = Some d) (handles results) /\
  length (opened st') =
    match _db st with
    | Some _ => length (opened st)
    | None =>
        (length (opened st) + length (errors results) +
         match handles results with [] => 0 | _ :: _ => 1 end)%nat
    end.
Proof.
  induction calls as [|a rest IH]; intros st; cbn zeta.
  - cbn. destruct (_db st); repeat split; try constructor; lia.
  - cbn [GetDB_calls].
    destruct (GetDB sql_Open a st) as [r st1] eqn:Hcall.
    specialize (IH st1). cbn zeta in IH.
    pose proof (GetDB_log a st) as Ho. rewrite Hcall in Ho. cbn [snd] in Ho.
    destruct r as [d|e].
    + pose proof (GetDB_success_sets sql_Open a st d st1 Hcall) as Hset.
      rewrite (GetDB_calls_cached sql_Open rest st1 d Hset). cbn [fst snd].
      cbn [errors handles]. rewrite errors_all_ok, handles_all_ok.
      cbn [fmap list_fmap app length].
      split; [f_equal; now rewrite <- list_fmap_compose|].
      split.
      { constructor; [exact Hset|]. apply Forall_fmap, Forall_true. intros ?. exact Hset. }
      rewrite Ho. destruct (_db st); [reflexivity|]. rewrite length_app. cbn. lia.
    + pose proof (GetDB_failure_leaves_nil sql_Open a st e st1 Hcall) as Hnil.
      assert (Hst : _db st = None).
      { unfold GetDB in Hcall. destruct (_db st); [discriminate|reflexivity]. }
      rewrite Hst in Ho |- *. rewrite Hnil in IH.
      destruct (GetDB_calls sql_Open rest st1) as [rs st2].
      cbn [fst snd] in *. destruct IH as (Hshape & Hall & Hopen).
      cbn [errors handles fmap list_fmap app length].
      split; [f_equal; exact Hshape|]. split; [exact Hall|].
      rewrite Hopen, Ho, length_app. cbn. lia.
Qed.

(** [GetFaultyTestDB] goes round the cache: in every package state,
    whether [_db] is set or not, it opens a connection with the test
    arguments, leaves [_db] as it is, and returns what [GetTestDB] would
    return were nothing cached, with nil in place of an error. *)
Theorem GetFaultyTestDB_bypasses_cache st :
  let faulty := GetFaultyTestDB sql_Open st in
  let uncached := GetTestDB sql_Open (mkPkg None (opened st)) in
  _db faulty.2 = _db st /\
  opened faulty.2 = opened st ++ [connStr test_args] /\
  faulty.1 = match uncached.1 with Ok d => Some d | Err _ => None end.
Proof.
  cbn zeta. unfold GetFaultyTestDB, GetTestDB, GetDB, InitDb. cbn [_db opened].
  fold test_args. destruct (sql_Open "postgres" (connStr test_args)); repeat split.
Qed.

End Calls.
End ModelsHelpersFacts.

(** ** The producer closes what it opened *)

Module ProducerEndFacts.
Import Producer ProducerEnd.

Section Ending.

Context {broker : Type}.
Variable NewSyncProducer : list string -> result broker.
Variable SendMessage : broker -> ProducerMessage -> broker * option string.

Lemma loop_ending picks : forall p,
  final (loop SendMessage p picks) = ending_of (stop_of picks) /\
  closed (loop SendMessage p picks) =
    match stop_of picks with None => false | Some _ => true end.
Proof.
  induction picks as [|pick rest IH]; intros p; [split; reflexivity|].
  destruct pick as [|[msg|]]; try (split; reflexivity).
  cbn [loop stop_of].
  destruct (SendMessage p (saramaMessage msg)) as [p' [e|]]; cbn [after_send final closed];
    apply IH.
Qed.

(** When [NewSyncProducer] fails, [Producer] returns without a send
    and without a [Close]. When it succeeds, the loop ends at the first
    pick that is no message (it returns on [doneChan], panics on a nil
    message), and the deferred [Close] has run exactly when the loop has
    ended, by return or by panic; as long as only messages arrive the
    producer is neither closed nor done. *)
Theorem Producer_closes_what_it_opened brokers picks :
  let r := Producer NewSyncProducer SendMessage brokers picks in
  match NewSyncProducer brokers with
  | Err _ => closed r = false /\ final r = Returned /\ sends r = []
  | Ok _ =>
      final r = ending_of (stop_of picks) /\
      (closed r = true <-> final r <> Parked)
  end.
Proof.
  cbn zeta. unfold Producer. destruct (NewSyncProducer brokers) as [p|e].
  - destruct (loop_ending picks p) as [-> ->]. split; [reflexivity|].
    destruct (stop_of picks) as [[|[]]|]; cbn; split; congruence.
  - repeat split.
Qed.

End Ending.
End ProducerEndFacts.

(** ** Whole runs of the reader *)

Module ReaderRunsFacts.
Import Workers WorkersFacts ReaderRuns.

Lemma yields_ret {A} (a : A) w Q : Q (Next a) w [] -> yields (ret a) w Q.
Proof. exact id. Qed.

Lemma yields_leave {A} e w (Q : step A -> _ -> _ -> Prop) :
  Q (Exit e) w [] -> yields (leave e) w Q.
Proof. exact id. Qed.

Lemma yields_fatal {A} text w (Q : step A -> _ -> _ -> Prop) :
  Q (Exit Fatal) w [Logged "fatal" text] -> yields (fatal text) w Q.
Proof. exact id. Qed.

Lemma yields_get {B} (k : BatchPGWorker -> M B) w Q :
  yields (k w) w Q -> yields (bind get k) w Q.
Proof. unfold yields. now rewrite bind_get. Qed.

Lemma yields_emit {B} e (k : unit -> M B) w Q :
  yields (k tt) w (fun r w' log => Q r w' (e :: log)) -> yields (bind (emit e) k) w Q.
Proof. unfold yields. now rewrite bind_emit. Qed.

Lemma yields_assign {B} f (k : unit -> M B) w Q :
  yields (k tt) (f w) (fun r w' log => Q r w' (Wrote (f w) :: log)) ->
  yields (bind (assign f) k) w Q.
Proof. unfold yields. now rewrite bind_assign. Qed.

Lemma yields_bind {A B} (c : M A) (k : A -> M B) w Q :
  yields c w (fun r w1 log1 =>
    match r with
    | Next a => yields (k a) w1 (fun r2 w2 log2 => Q r2 w2 (log1 ++ log2))
    | Exit e => Q (Exit e) w1 log1
    end) ->
  yields (bind c k) w Q.
Proof.
  unfold yields, bind. destruct (c w) as [[[a|e] w1] log1]; cbn [fst snd]; [|exact id].
  destruct (k a w1) as [[r2 w2] log2]. exact id.
Qed.

Lemma yields_weaken {A} (c : M A) w (Q Q' : step A -> _ -> _ -> Prop) :
  yields c w Q -> (forall r w' log, Q r w' log -> Q' r w' log) -> yields c w Q'.
Proof. unfold yields. auto. Qed.

Lemma same_job_refl m : same_job m m.
Proof. repeat split. Qed.

Lemma same_job_sym a b : same_job a b -> same_job b a.
Proof. unfold same_job. intuition congruence. Qed.

Lemma same_job_trans a b c : same_job a b -> same_job b c -> same_job a c.
Proof. unfold same_job. intuition congruence. Qed.

Lemma with_user_same_job u m m' : same_job m m' -> with_user u m' = with_user u m.
Proof.
  intros (Ha & Hs & Ht & Hp). unfold with_user, set_Locale, set_Token. cbn.
  now rewrite Ha, Hs, Ht, Hp.
Qed.

Lemma same_job_with_user u m : same_job m (with_user u m).
Proof. repeat split. Qed.

Lemma sent_cons e log :
  sent (e :: log) = match e with Send s => s :: sent log | _ => sent log end.
Proof. now destruct e. Qed.

Lemma selects_cons e log :
  selects (e :: log) =
  match e with Select _ _ _ m => m :: selects log | _ => selects log end.
Proof. now destruct e. Qed.

Lemma sent_app log1 log2 : sent (log1 ++ log2) = sent log1 ++ sent log2.
Proof. apply omap_app. Qed.

Lemma selects_app log1 log2 : selects (log1 ++ log2) = selects log1 ++ selects log2.
Proof. apply omap_app. Qed.

Ltac conjuncts :=
  repeat (split; [first [reflexivity | assumption | lia]|]);
  try first [reflexivity | assumption | lia].

Section Pages.

Variable CountUserTokensByFilters :
  string -> string -> list (list value) -> list (list value) -> result Z.
Variable GetUserTokensBatchByFilters :
  string -> string -> list (list value) -> list (list value) -> result (list UserToken).
Variable json_Marshal : InputMessage -> result string.

(** The job, the encoding of each user's message, and the batch the store
    answers every fetch of this job with. *)
Variable m0 : InputMessage.
Variable enc : UserToken -> string.

Lemma yields_range userTokens : forall w,
  same_job m0 (Message w) ->
  (forall u, u ∈ userTokens -> json_Marshal (with_user u m0) = Ok (enc u)) ->
  yields (range_userTokens json_Marshal userTokens) w
    (fun r w' log =>
       r = Next tt /\ sent log = enc <$> userTokens /\ selects log = [] /\
       ProcessedTokens w' = ProcessedTokens w + Z.of_nat (length userTokens) /\
       paging_frame w w').
Proof.
  induction userTokens as [|u rest IH]; intros w Hjob Henc; cbn [range_userTokens].
  - apply yields_ret. cbn. repeat split; lia.
  - do 2 apply yields_assign. apply yields_get.
    cbn [Message set_Message].
    change (set_Locale _ (set_Token _ (Message w))) with (with_user u (Message w)).
    rewrite (with_user_same_job u m0 (Message w) Hjob).
    rewrite (Henc u) by apply list_elem_of_here.
    apply yields_emit, yields_assign.
    eapply yields_weaken.
    + apply IH.
      * cbn. apply same_job_with_user.
      * intros u' Hu'. apply Henc. now apply list_elem_of_further.
    + cbn beta. intros r w' log (-> & Hsent & Hsel & Htok & Hjob' & Htt & Htp & Hpp).
      cbn in Htok, Hjob', Htt, Htp, Hpp.
      rewrite !sent_cons, !selects_cons, Hsent, Hsel.
      assert (same_job (Message w) (Message w')).
      { destruct Hjob as (? & ? & ? & ?), Hjob' as (? & ? & ? & ?).
        cbn in *. repeat split; congruence. }
      cbn [length]. unfold paging_frame. repeat split; try assumption; try lia.
      all: now destruct H as (? & ? & ? & ?).
Qed.

Lemma yields_range_fails before u after e : forall w,
  same_job m0 (Message w) ->
  (forall v, v ∈ before -> json_Marshal (with_user v m0) = Ok (enc v)) ->
  json_Marshal (with_user u m0) = Err e ->
  yields (range_userTokens json_Marshal (before ++ u :: after)) w
    (fun r w' log =>
       r = Exit (Return (Some e)) /\ sent log = enc <$> before /\ selects log = [] /\
       ProcessedTokens w' = ProcessedTokens w + Z.of_nat (length before) /\
       paging_frame w w').
Proof.
  induction before as [|v rest IH]; intros w Hjob Henc Hfail;
    cbn [app range_userTokens]; do 2 apply yields_assign; apply yields_get;
    cbn [Message set_Message].
  - change (set_Locale _ (set_Token _ (Message w))) with (with_user u (Message w)).
    rewrite (with_user_same_job u m0 (Message w) Hjob), Hfail.
    apply yields_emit, yields_leave. rewrite !sent_cons, !selects_cons. cbn.
    conjuncts. unfold paging_frame, same_job. cbn.
    destruct Hjob as (? & ? & ? & ?). repeat split; congruence.
  - change (set_Locale _ (set_Token _ (Message w))) with (with_user v (Message w)).
    rewrite (with_user_same_job v m0 (Message w) Hjob).
    rewrite (Henc v) by apply list_elem_of_here.
    apply yields_emit, yields_assign.
    eapply yields_weaken.
    + apply IH.
      * cbn. apply same_job_with_user.
      * intros v' Hv'. apply Henc. now apply list_elem_of_further.
      * exact Hfail.
    + cbn beta. intros r w' log (-> & Hsent & Hsel & Htok & Hjob' & Htt & Htp & Hpp).
      cbn in Htok, Hjob', Htt, Htp, Hpp.
      rewrite !sent_cons, !selects_cons, Hsent, Hsel.
      assert (same_job (Message w) (Message w')).
      { destruct Hjob as (? & ? & ? & ?), Hjob' as (? & ? & ? & ?).
        cbn in *. repeat split; congruence. }
      cbn [length]. unfold paging_frame. conjuncts.
Qed.

Lemma yields_while userTokens w :
  ProcessedTokens w = 0 ->
  same_job m0 (Message w) ->
  (forall u, u ∈ userTokens -> json_Marshal (with_user u m0) = Ok (enc u)) ->
  yields (while_ProcessedTokens json_Marshal 1 userTokens) w
    (fun r w' log =>
       r = Next tt /\ sent log = enc <$> userTokens /\ selects log = [] /\
       ProcessedTokens w' = Z.of_nat (length userTokens) /\
       paging_frame w w').
Proof.
  intros Hzero Hjob Henc. cbn [while_ProcessedTokens]. apply yields_get.
  destruct (Z.ltb_spec (ProcessedTokens w) (Z.of_nat (length userTokens))) as [Hlt|Hge].
  - apply yields_bind. eapply yields_weaken; [apply yields_range; eassumption|].
    cbn beta. intros r w1 log1 (-> & Hsent & Hsel & Htok & Hframe).
    apply yields_get.
    destruct (Z.ltb_spec (ProcessedTokens w1) (Z.of_nat (length userTokens))); [lia|].
    apply yields_ret. rewrite app_nil_r.
    repeat (split; [first [reflexivity|assumption|lia]|]). exact Hframe.
  - apply yields_ret. destruct userTokens; [|cbn [length] in Hge; lia].
    repeat (split; [first [reflexivity|assumption|lia]|]).
    split; [apply same_job_refl|repeat split].
Qed.

Variable filters modifiers : list (list value).
Variable batch : list UserToken.
Hypothesis fetch_batch :
  GetUserTokensBatchByFilters (App m0) (Service m0) filters modifiers = Ok batch.
Hypothesis marshal_batch :
  forall u, u ∈ batch -> json_Marshal (with_user u m0) = Ok (enc u).

Lemma yields_page_loop n : forall w,
  same_job m0 (Message w) ->
  TotalPages w - ProcessedPages w = Z.of_nat n ->
  yields (page_loop GetUserTokensBatchByFilters json_Marshal n filters modifiers) w
    (fun r w' log =>
       r = Next tt /\
       sent log = concat (replicate n (enc <$> batch)) /\
       selects log = replicate n modifiers /\
       same_job m0 (Message w') /\
       TotalTokens w' = TotalTokens w /\
       TotalPages w' = TotalPages w /\
       ProcessedPages w' = TotalPages w /\
       ProcessedTokens w' =
         match n with O => ProcessedTokens w | S _ => Z.of_nat (length batch) end).
Proof.
  induction n as [|n IH]; intros w Hjob Hleft; cbn [page_loop]; apply yields_get.
  - destruct (Z.ltb_spec (ProcessedPages w) (TotalPages w)); [lia|].
    apply yields_ret. conjuncts.
  - destruct (Z.ltb_spec (ProcessedPages w) (TotalPages w)); [|lia].
    apply yields_emit.
    destruct Hjob as (Happ & Hsvc & Htpl & Hexp).
    rewrite Happ, Hsvc, fetch_batch.
    apply yields_assign, yields_bind.
    eapply yields_weaken.
    { apply yields_while; [reflexivity| |exact marshal_batch]. repeat split; assumption. }
    cbn beta. intros r w1 log1 (-> & Hsent & Hsel & Htok & Hjob1 & Htt & Htp & Hpp).
    cbn in Hjob1, Htt, Htp, Hpp.
    apply yields_assign.
    eapply yields_weaken.
    { apply IH; cbn.
      - destruct Hjob1 as (? & ? & ? & ?). repeat split; congruence.
      - lia. }
    cbn beta. intros r w2 log2 (-> & Hsent2 & Hsel2 & Hjob2 & Htt2 & Htp2 & Hpp2 & Htok2).
    cbn in Htt2, Htp2, Hpp2, Htok2.
    rewrite !sent_cons, !selects_cons, !sent_app, !selects_app, !sent_cons, !selects_cons.
    rewrite Hsent, Hsel, Hsent2, Hsel2. cbn [replicate concat].
    conjuncts. destruct n; lia.
Qed.

End Pages.

Section Outcomes.

Variable CountUserTokensByFilters :
  string -> string -> list (list value) -> list (list value) -> result Z.
Variable GetUserTokensBatchByFilters :
  string -> string -> list (list value) -> list (list value) -> result (list UserToken).
Variable json_Marshal : InputMessage -> result string.

(** The reader up to the page loop, when the limit is positive and the
    count is one: what is left to run is the page loop from here. *)
Lemma yields_pgReader_pages filters modifiers w limit T Q :
  Forall well_formed_modifier modifiers ->
  last (limit_values modifiers) = Some limit -> 0 < limit ->
  CountUserTokensByFilters (App (Message w)) (Service (Message w)) filters modifiers = Ok T ->
  0 <= T < 2 ^ 63 - 1 ->
  let w1 := set_TotalTokens T w in
  let w2 := set_TotalTokens T w1 in
  let w3 := set_TotalPages (T / limit + 1) w2 in
  let w4 := set_ProcessedPages 0 w3 in
  yields (page_loop GetUserTokensBatchByFilters json_Marshal (Z.to_nat (T / limit + 1))
                    filters modifiers) w4
    (fun r w' log =>
       let log0 := Count (App (Message w)) (Service (Message w)) filters modifiers
                   :: Wrote w1 :: Wrote w2 :: Wrote w3 :: Wrote w4 :: log in
       match r with
       | Next _ => Q (Exit (Return None)) w' log0
       | Exit e => Q (Exit e) w' log0
       end) ->
  yields (pgReader CountUserTokensByFilters GetUserTokensBatchByFilters json_Marshal
                   filters modifiers) w Q.
Proof.
  intros Hwf Hlast Hpos Hcount Hrange w1 w2 w3 w4 Hloop.
  unfold pgReader. rewrite (scan_limit_last modifiers (-1) Hwf), Hlast. cbn [from_option id].
  destruct (Z.leb_spec limit 0); [lia|].
  apply yields_get, yields_emit. rewrite Hcount. apply yields_assign.
  destruct (Z.ltb_spec T 0); [lia|].
  rewrite (pages_of_quotient T limit Hpos Hrange).
  do 3 apply yields_assign. apply yields_bind.
  eapply yields_weaken; [exact Hloop|].
  cbn beta zeta. intros [[]|e] w' log HQ; [|exact HQ].
  apply yields_leave. rewrite app_nil_r. exact HQ.
Qed.

(** When the limit is positive, the count [T] is usable, the store
    answers the fetch with [batch] and every message of the batch can be
    encoded, [pgReader] returns no error after [T / limit + 1] pages. On
    each page it issues the fetch with the modifiers it was given and
    sends the records of [batch], in order; it leaves [TotalTokens] at
    [T], [TotalPages] and [ProcessedPages] at the page count, and
    [ProcessedTokens] at the length of the batch. *)
Theorem pgReader_sends_one_batch_per_page filters modifiers w limit T batch enc :
  Forall well_formed_modifier modifiers ->
  last (limit_values modifiers) = Some limit -> 0 < limit ->
  CountUserTokensByFilters (App (Message w)) (Service (Message w)) filters modifiers = Ok T ->
  0 <= T < 2 ^ 63 - 1 ->
  GetUserTokensBatchByFilters (App (Message w)) (Service (Message w)) filters modifiers
    = Ok batch ->
  (forall u, u ∈ batch -> json_Marshal (with_user u (Message w)) = Ok (enc u)) ->
  let pages := Z.to_nat (T / limit + 1) in
  let run := pgReader CountUserTokensByFilters GetUserTokensBatchByFilters json_Marshal
                      filters modifiers w in
  run.1.1 = Exit (Return None) /\
  sent run.2 = concat (replicate pages (enc <$> batch)) /\
  selects run.2 = replicate pages modifiers /\
  TotalTokens run.1.2 = T /\
  TotalPages run.1.2 = T / limit + 1 /\
  ProcessedPages run.1.2 = T / limit + 1 /\
  ProcessedTokens run.1.2 = Z.of_nat (length batch).
Proof.
  intros Hwf Hlast Hpos Hcount Hrange Hfetch Hmarshal pages run.
  pose proof (pages_of_positive T limit Hpos Hrange) as Hpages.
  rewrite (pages_of_quotient T limit Hpos Hrange) in Hpages.
  apply (yields_pgReader_pages filters modifiers w limit T
           (fun r w' log =>
              r = Exit (Return None) /\
              sent log = concat (replicate pages (enc <$> batch)) /\
              selects log = replicate pages modifiers /\
              TotalTokens w' = T /\ TotalPages w' = T / limit + 1 /\
              ProcessedPages w' = T / limit + 1 /\
              ProcessedTokens w' = Z.of_nat (length batch))
           Hwf Hlast Hpos Hcount Hrange).
  eapply yields_weaken.
  { apply (yields_page_loop GetUserTokensBatchByFilters json_Marshal (Message w) enc
             filters modifiers batch Hfetch Hmarshal).
    - apply same_job_refl.
    - cbn. lia. }
  cbn beta zeta. intros r w' log (-> & Hsent & Hsel & _ & Htt & Htp & Hpp & Htok).
  cbn in Htt, Htp, Hpp, Htok.
  rewrite !sent_cons, !selects_cons, Hsent, Hsel.
  fold pages in Htok |- *. destruct pages eqn:Hp; [lia|]. conjuncts.
Qed.

(** When the store fails on the fetch, [pgReader] returns that error
    after the first attempt: one fetch was issued, nothing was sent,
    the totals are set and [ProcessedPages] is still zero. *)
Theorem pgReader_returns_fetch_error filters modifiers w limit T e :
  Forall well_formed_modifier modifiers ->
  last (limit_values modifiers) = Some limit -> 0 < limit ->
  CountUserTokensByFilters (App (Message w)) (Service (Message w)) filters modifiers = Ok T ->
  0 <= T < 2 ^ 63 - 1 ->
  GetUserTokensBatchByFilters (App (Message w)) (Service (Message w)) filters modifiers
    = Err e ->
  let run := pgReader CountUserTokensByFilters GetUserTokensBatchByFilters json_Marshal
                      filters modifiers w in
  run.1.1 = Exit (Return (Some e)) /\
  sent run.2 = [] /\
  selects run.2 = [modifiers] /\
  TotalTokens run.1.2 = T /\
  TotalPages run.1.2 = T / limit + 1 /\
  ProcessedPages run.1.2 = 0.
Proof.
  intros Hwf Hlast Hpos Hcount Hrange Hfetch run.
  pose proof (pages_of_positive T limit Hpos Hrange) as Hpages.
  rewrite (pages_of_quotient T limit Hpos Hrange) in Hpages.
  apply (yields_pgReader_pages filters modifiers w limit T
           (fun r w' log =>
              r = Exit (Return (Some e)) /\ sent log = [] /\ selects log = [modifiers] /\
              TotalTokens w' = T /\ TotalPages w' = T / limit + 1 /\
              ProcessedPages w' = 0)
           Hwf Hlast Hpos Hcount Hrange).
  destruct (Z.to_nat (T / limit + 1)) as [|n] eqn:Hn; [lia|].
  cbn [page_loop]. apply yields_get. cbn [ProcessedPages TotalPages set_ProcessedPages set_TotalPages].
  destruct (Z.ltb_spec 0 (T / limit + 1)); [|lia].
  apply yields_emit. cbn [Message set_ProcessedPages set_TotalPages set_TotalTokens].
  rewrite Hfetch. apply yields_emit, yields_leave. cbn zeta.
  rewrite !sent_cons, !selects_cons. cbn. conjuncts.
Qed.

(** With a positive limit, a count that fails or is below zero ends
    the process through [Fatal] before any fetch and any send. A failed
    count leaves the worker as it was; a negative one has been stored
    in [TotalTokens] by then, and nothing else was written. *)
Theorem pgReader_unusable_count filters modifiers w limit :
  Forall well_formed_modifier modifiers ->
  last (limit_values modifiers) = Some limit -> 0 < limit ->
  let run := pgReader CountUserTokensByFilters GetUserTokensBatchByFilters json_Marshal
                      filters modifiers w in
  match CountUserTokensByFilters (App (Message w)) (Service (Message w)) filters modifiers with
  | Err _ => run.1.1 = Exit Fatal /\ run.1.2 = w /\ selects run.2 = [] /\ sent run.2 = []
  | Ok T =>
      T < 0 ->
      run.1.1 = Exit Fatal /\ run.1.2 = set_TotalTokens T w /\
      selects run.2 = [] /\ sent run.2 = []
  end.
Proof.
  intros Hwf Hlast Hpos run. subst run. unfold pgReader.
  rewrite (scan_limit_last modifiers (-1) Hwf), Hlast. cbn [from_option id].
  destruct (Z.leb_spec limit 0); [lia|].
  rewrite bind_get, bind_emit.
  destruct (CountUserTokensByFilters _ _ _ _) as [T|e].
  - intros Hneg. rewrite bind_assign.
    destruct (Z.ltb_spec T 0); [|lia]. cbn. conjuncts.
  - cbn. conjuncts.
Qed.

(** When [json.Marshal] fails on the message for a token of the first
    batch, [pgReader] returns that error at once: the records of the
    tokens before it have been sent, in order, and are counted in
    [ProcessedTokens]; no record of a later token is sent, no second
    fetch is issued and [ProcessedPages] stays at zero. *)
Theorem pgReader_stops_at_marshal_error filters modifiers w limit T before u after enc e :
  Forall well_formed_modifier modifiers ->
  last (limit_values modifiers) = Some limit -> 0 < limit ->
  CountUserTokensByFilters (App (Message w)) (Service (Message w)) filters modifiers = Ok T ->
  0 <= T < 2 ^ 63 - 1 ->
  GetUserTokensBatchByFilters (App (Message w)) (Service (Message w)) filters modifiers
    = Ok (before ++ u :: after) ->
  (forall v, v ∈ before -> json_Marshal (with_user v (Message w)) = Ok (enc v)) ->
  json_Marshal (with_user u (Message w)) = Err e ->
  let run := pgReader CountUserTokensByFilters GetUserTokensBatchByFilters json_Marshal
                      filters modifiers w in
  run.1.1 = Exit (Return (Some e)) /\
  sent run.2 = enc <$> before /\
  selects run.2 = [modifiers] /\
  ProcessedPages run.1.2 = 0 /\
  ProcessedTokens run.1.2 = Z.of_nat (length before).
Proof.
  intros Hwf Hlast Hpos Hcount Hrange Hfetch Hmarshal Hfail run.
  pose proof (pages_of_positive T limit Hpos Hrange) as Hpages.
  rewrite (pages_of_quotient T limit Hpos Hrange) in Hpages.
  apply (yields_pgReader_pages filters modifiers w limit T
           (fun r w' log =>
              r = Exit (Return (Some e)) /\ sent log = enc <$> before /\
              selects log = [modifiers] /\ ProcessedPages w' = 0 /\
              ProcessedTokens w' = Z.of_nat (length before))
           Hwf Hlast Hpos Hcount Hrange).
  destruct (Z.to_nat (T / limit + 1)) as [|n] eqn:Hn; [lia|].
  cbn [page_loop]. apply yields_get.
  cbn [ProcessedPages TotalPages set_ProcessedPages set_TotalPages].
  destruct (Z.ltb_spec 0 (T / limit + 1)); [|lia].
  apply yields_emit. cbn [Message set_ProcessedPages set_TotalPages set_TotalTokens].
  rewrite Hfetch. apply yields_assign, yields_bind.
  cbn [while_ProcessedTokens]. apply yields_get.
  cbn [ProcessedTokens set_ProcessedTokens].
  destruct (Z.ltb_spec 0 (Z.of_nat (length (before ++ u :: after))));
    [|rewrite length_app in *; cbn [length] in *; lia].
  apply yields_bind.
  eapply yields_weaken.
  { apply (yields_range_fails json_Marshal (Message w) enc before u after e);
      [apply same_job_refl|exact Hmarshal|exact Hfail]. }
  cbn beta. intros r w' log (-> & Hsent & Hsel & Htok & _ & _ & _ & Hpp).
  cbn in Htok, Hpp. cbn zeta.
  rewrite !sent_cons, !selects_cons, Hsent, Hsel. conjuncts.
Qed.

End Outcomes.

Lemma limit_of_well_formed n : Forall well_formed_modifier (limit_of n).
Proof. repeat constructor. intros _. eauto. Qed.

(** Three tokens in pages of two: two pages, each sending the first two
    tokens. *)
Lemma pgReader_sends_one_batch_per_page_witness :
  let run := pgReader (table_count (tokens 3)) (table_select (tokens 3)) marshal_message
                      [] (limit_of 2) (new_worker (limit_of 2)) in
  run.1.1 = Exit (Return None) /\
  sent run.2 = concat (replicate (Z.to_nat (3 / 2 + 1)) (record_for <$> tokens 2)) /\
  selects run.2 = replicate (Z.to_nat (3 / 2 + 1)) (limit_of 2) /\
  TotalTokens run.1.2 = 3 /\
  TotalPages run.1.2 = 3 / 2 + 1 /\
  ProcessedPages run.1.2 = 3 / 2 + 1 /\
  ProcessedTokens run.1.2 = Z.of_nat (length (tokens 2)).
Proof.
  apply (pgReader_sends_one_batch_per_page
           (table_count (tokens 3)) (table_select (tokens 3)) marshal_message
           [] (limit_of 2) (new_worker (limit_of 2)) 2 3 (tokens 2) record_for).
  - apply limit_of_well_formed.
  - reflexivity.
  - lia.
  - reflexivity.
  - lia.
  - reflexivity.
  - intros u _. reflexivity.
Defined.

(** The store fails on the first fetch. *)
Lemma pgReader_returns_fetch_error_witness :
  let run := pgReader (table_count (tokens 3)) failing_select marshal_message
                      [] (limit_of 2) (new_worker (limit_of 2)) in
  run.1.1 = Exit (Return (Some "pq: the database system is shutting down")) /\
  sent run.2 = [] /\
  selects run.2 = [limit_of 2] /\
  TotalTokens run.1.2 = 3 /\
  TotalPages run.1.2 = 3 / 2 + 1 /\
  ProcessedPages run.1.2 = 0.
Proof.
  apply (pgReader_returns_fetch_error
           (table_count (tokens 3)) failing_select marshal_message
           [] (limit_of 2) (new_worker (limit_of 2)) 2 3
           "pq: the database system is shutting down").
  - apply limit_of_well_formed.
  - reflexivity.
  - lia.
  - reflexivity.
  - lia.
  - reflexivity.
Defined.

(** A count that fails, and a count of minus one. *)
Lemma pgReader_unusable_count_witness :
  (let run := pgReader failing_count (table_select (tokens 3)) marshal_message
                       [] (limit_of 2) (new_worker (limit_of 2)) in
   run.1.1 = Exit Fatal /\ run.1.2 = new_worker (limit_of 2) /\
   selects run.2 = [] /\ sent run.2 = []) /\
  (let run := pgReader negative_count (table_select (tokens 3)) marshal_message
                       [] (limit_of 2) (new_worker (limit_of 2)) in
   run.1.1 = Exit Fatal /\ run.1.2 = set_TotalTokens (-1) (new_worker (limit_of 2)) /\
   selects run.2 = [] /\ sent run.2 = []).
Proof.
  split.
  - apply (pgReader_unusable_count failing_count (table_select (tokens 3)) marshal_message
             [] (limit_of 2) (new_worker (limit_of 2)) 2);
      [apply limit_of_well_formed | reflexivity | lia].
  - apply (pgReader_unusable_count negative_count (table_select (tokens 3)) marshal_message
             [] (limit_of 2) (new_worker (limit_of 2)) 2);
      [apply limit_of_well_formed | reflexivity | lia | lia].
Defined.

(** The message for the second of three tokens cannot be encoded. *)
Lemma pgReader_stops_at_marshal_error_witness :
  let run := pgReader (table_count (tokens 3)) (table_select (tokens 3))
                      (marshal_unless "token-1") [] (limit_of 3) (new_worker (limit_of 3)) in
  run.1.1 = Exit (Return (Some "json: unsupported value")) /\
  sent run.2 = record_for <$> tokens 1 /\
  selects run.2 = [limit_of 3] /\
  ProcessedPages run.1.2 = 0 /\
  ProcessedTokens run.1.2 = Z.of_nat (length (tokens 1)).
Proof.
  apply (pgReader_stops_at_marshal_error
           (table_count (tokens 3)) (table_select (tokens 3)) (marshal_unless "token-1")
           [] (limit_of 3) (new_worker (limit_of 3)) 3 3
           (tokens 1) (mkUserToken "token-1" "en") [mkUserToken "token-2" "en"]
           record_for "json: unsupported value").
  - apply limit_of_well_formed.
  - reflexivity.
  - lia.
  - reflexivity.
  - lia.
  - reflexivity.
  - intros v Hv. apply list_elem_of_singleton in Hv as ->. reflexivity.
  - reflexivity.
Defined.

End ReaderRunsFacts.

(** ** What the status updater leaves in the store *)

Module UpdaterFacts.
Import Workers WorkersFacts ReaderRuns ReaderRunsFacts Updater.

#[local] Instance same_identity_refl : Reflexive same_identity.
Proof. intros w. repeat split. Qed.

#[local] Instance same_identity_trans : Transitive same_identity.
Proof.
  intros a b c (? & ? & ? & ? & ? & ? & ? & ? & ?) (? & ? & ? & ? & ? & ? & ? & ? & ?).
  repeat split; congruence.
Qed.

Lemma follows_all (R : relation BatchPGWorker) `{!Reflexive R, !Transitive R} w log w' :
  follows R w log w' -> Forall (R w) (history w log).
Proof.
  intros H. apply follows_sorted in H; [|assumption..].
  unfold history in *. apply StronglySorted_inv in H as [_ Hall].
  constructor; [reflexivity|exact Hall].
Qed.

Section Identity.

Variable CountUserTokensByFilters :
  string -> string -> list (list value) -> list (list value) -> result Z.
Variable GetUserTokensBatchByFilters :
  string -> string -> list (list value) -> list (list value) -> result (list UserToken).
Variable json_Marshal : InputMessage -> result string.

(** Whatever the store answers, every state of the worker a status
    observer can see during a run of [pgReader] has the ID, the notifier,
    the filters, the modifiers, the start time and the job of the message
    (app, service, template, push expiry) the run began with; only the
    token and the locale of the message and the four counters change.
    In particular the key [SetStatus] writes under is the same in all of
    them. *)
Theorem pgReader_keeps_identity filters modifiers w :
  Forall (fun w' => same_identity w w' /\ redisKey w' = redisKey w)
    (history w (pgReader CountUserTokensByFilters GetUserTokensBatchByFilters json_Marshal
                         filters modifiers w).2).
Proof.
  assert (Hruns : runs same_identity
            (pgReader CountUserTokensByFilters GetUserTokensBatchByFilters json_Marshal
                      filters modifiers) w (fun _ _ => True)).
  { apply runs_pgReader; try (intros; repeat split; fail). }
  destruct Hruns as [Hfollows _].
  eapply Forall_impl; [exact (follows_all same_identity _ _ _ Hfollows)|].
  intros w' Hsame. split; [exact Hsame|].
  destruct Hsame as (Hid & Hn & _). unfold redisKey. cbn. now rewrite Hid, Hn.
Qed.

End Identity.

Section LastWrite.

Variable json_Marshal : gmap string status_value -> result string.

Lemma SetStatus_reachable w cli s :
  reachable cli = true -> json_Marshal (GetStatus w) = Ok s ->
  SetStatus Redis_Set json_Marshal w cli
  = (StatusSet, mkRedis (<[redisKey w := s]> (kv cli)) true).
Proof. intros Hup Hs. unfold SetStatus, Redis_Set. now rewrite Hs, Hup. Qed.

(** On a reachable store, when every worker state the updater sees
    before [doneChan] is ready can be encoded and has the key [key], the
    updater does not panic, every [SetStatus] returns, and the store
    ends as the store it began with, with [key] bound to the encoding
    of the last state seen: each write replaces the one before, no other
    key is touched, and with nothing seen the store is unchanged. *)
Theorem updateStatus_last_write_wins ticks : forall cli key,
  reachable cli = true ->
  (forall w, w ∈ observed ticks ->
     redisKey w = key /\ exists s, json_Marshal (GetStatus w) = Ok s) ->
  let result := updateStatus Redis_Set json_Marshal ticks cli in
  result.2 = length (observed ticks) /\
  (forall text, result.1.1 <> UpdaterPanicked text) /\
  reachable result.1.2 = true /\
  match last (observed ticks) with
  | None => kv result.1.2 = kv cli
  | Some w =>
      exists s, json_Marshal (GetStatus w) = Ok s /\
                kv result.1.2 = <[key := s]> (kv cli)
  end.
Proof.
  induction ticks as [|[|w] rest IH]; intros cli key Hup Hobs; cbn zeta.
  - cbn. repeat split; try assumption; discriminate.
  - cbn. repeat split; try assumption; discriminate.
  - cbn [updateStatus observed].
    destruct (Hobs w ltac:(apply list_elem_of_here)) as [Hkey [s Hs]].
    rewrite (SetStatus_reachable w cli s Hup Hs), Hkey.
    specialize (IH (mkRedis (<[key:=s]> (kv cli)) true) key eq_refl).
    cbn zeta in IH.
    destruct (updateStatus Redis_Set json_Marshal rest _) as [[e cli'] n].
    destruct IH as (Hn & He & Hup' & Hlast).
    { intros w' Hw'. apply Hobs. now apply list_elem_of_further. }
    cbn [fst snd] in *. repeat split; [now rewrite Hn|exact He|exact Hup'|].
    rewrite last_cons. destruct (last (observed rest)) as [wl|].
    + destruct Hlast as (sl & Hsl & Hkv). exists sl. split; [exact Hsl|].
      rewrite Hkv. cbn. apply insert_insert_eq.
    + exists s. split; [exact Hs|]. rewrite Hlast. reflexivity.
Qed.

End LastWrite.

(** Two passes of the updater on a reachable store, then [doneChan]. *)
Lemma updateStatus_last_write_wins_witness :
  let w1 := new_worker (limit_of 2) in
  let w2 := set_TotalTokens 3 w1 in
  let result := updateStatus Redis_Set marshal_status [Default w1; Default w2; DoneReady]
                             redis_up in
  result.2 = 2%nat /\
  (forall text, result.1.1 <> UpdaterPanicked text) /\
  reachable result.1.2 = true /\
  exists s, marshal_status (GetStatus w2) = Ok s /\
            kv result.1.2 = <[redisKey w1 := s]> (kv redis_up).
Proof.
  apply (updateStatus_last_write_wins marshal_status
           [Default (new_worker (limit_of 2));
            Default (set_TotalTokens 3 (new_worker (limit_of 2))); DoneReady]
           redis_up (redisKey (new_worker (limit_of 2))) eq_refl).
  intros w Hw. split; [|eexists; reflexivity].
  cbn [observed] in Hw.
  apply elem_of_cons in Hw as [->|Hw]; [reflexivity|].
  apply list_elem_of_singleton in Hw as ->. reflexivity.
Defined.

End UpdaterFacts.

(** ** Configuration of the worker *)

Module WorkerConfigFacts.
Import Viper WorkerConfig.

Lemma provided_set_defaults entries cfg :
  provided (set_defaults entries cfg) = provided cfg.
Proof.
  revert cfg. induction entries as [|entry rest IH]; intros cfg; [reflexivity|].
  unfold set_defaults in *. cbn [foldl]. rewrite IH. reflexivity.
Qed.

Lemma defaults_set_defaults entries key cfg :
  defaults (set_defaults entries cfg) !! key =
  match registered entries key with
  | Some v => Some v
  | None => defaults cfg !! key
  end.
Proof.
  revert cfg. induction entries as [|entry rest IH]; intros cfg; [reflexivity|].
  change (set_defaults (entry :: rest) cfg)
    with (set_defaults rest (SetDefault (fst entry) (snd entry) cfg)).
  rewrite IH. cbn [registered]. destruct (registered rest key); [reflexivity|].
  unfold SetDefault. cbn [defaults].
  destruct (decide (ToLower (fst entry) = key)) as [->|Hne].
  - apply lookup_insert_eq.
  - apply lookup_insert_ne. exact Hne.
Qed.

Lemma find_set_defaults entries key cfg :
  find key (set_defaults entries cfg) =
  match provided cfg !! ToLower key with
  | Some v => Some v
  | None =>
      match registered entries (ToLower key) with
      | Some v => Some v
      | None => defaults cfg !! ToLower key
      end
  end.
Proof.
  unfold find. rewrite provided_set_defaults, defaults_set_defaults. reflexivity.
Qed.

Lemma find_unregistered entries key cfg :
  registered entries (ToLower key) = None ->
  find key (set_defaults entries cfg) = find key cfg.
Proof.
  intros Hnone. rewrite find_set_defaults, Hnone. reflexivity.
Qed.

Lemma GetInt_unregistered entries key cfg :
  registered entries (ToLower key) = None ->
  GetInt key (set_defaults entries cfg) = GetInt key cfg.
Proof. intros Hnone. unfold GetInt. rewrite find_unregistered by exact Hnone. reflexivity. Qed.

Lemma GetString_unregistered entries key cfg :
  registered entries (ToLower key) = None ->
  GetString key (set_defaults entries cfg) = GetString key cfg.
Proof. intros Hnone. unfold GetString. rewrite find_unregistered by exact Hnone. reflexivity. Qed.

(** The defaults [setConfigurationDefaults] registers reach neither
    [createChannels] nor [connectRedis]: the keys these two read are not
    among the keys a default is set for (the channel sizes are read under
    names such as [pgtoparserchansize], the defaults are registered under
    names such as [workers.modules.pgtoparserchan]). Whatever the
    configuration holds, the channels made and the Redis connection asked
    for are those of the configuration without the worker's defaults. *)
Theorem defaults_reach_neither_channels_nor_redis (cfg : t) :
  createChannels (setConfigurationDefaults cfg) = createChannels cfg /\
  redis_args_of (setConfigurationDefaults cfg) = redis_args_of cfg.
Proof.
  unfold createChannels, redis_args_of, setConfigurationDefaults, channel_keys.
  cbn [forallb].
  rewrite !GetInt_unregistered by (vm_compute; reflexivity).
  rewrite !GetString_unregistered by (vm_compute; reflexivity).
  split; reflexivity.
Qed.

(** With a configuration that defines none of the six postgres keys
    (and no earlier default for the password), [connectDatabase] asks
    for the database the defaults name: the key [postgres.sslMode] it
    reads finds the default registered as [postgres.sslmode], and the
    password, which has no default, is empty. *)
Theorem connectDatabase_defaults (cfg : t) :
  (forall key, key ∈ ["postgres.host"; "postgres.user"; "postgres.dbname";
                      "postgres.password"; "postgres.port"; "postgres.sslmode"] ->
               provided cfg !! key = None) ->
  defaults cfg !! "postgres.password" = None ->
  postgres_args (setConfigurationDefaults cfg) =
  Models.mkArgs "localhost" "marathon" 5432 "disable" "marathon" "".
Proof.
  intros Hfile Hpass.
  unfold postgres_args, setConfigurationDefaults, GetString, GetInt.
  rewrite !find_set_defaults.
  repeat match goal with
  | |- context [provided cfg !! ToLower ?k] =>
      let k' := eval vm_compute in (ToLower k) in
      change (ToLower k) with k';
      rewrite (Hfile k') by (repeat first [apply list_elem_of_here | apply list_elem_of_further])
  end.
  rewrite Hpass. reflexivity.
Qed.

Lemma connectDatabase_defaults_witness :
  postgres_args (setConfigurationDefaults New) =
  Models.mkArgs "localhost" "marathon" 5432 "disable" "marathon" "".
Proof.
  apply (connectDatabase_defaults New); [intros key _|]; reflexivity.
Defined.

Section Outside.

Variable DB RedisClient : Type.
Variable ReadInConfig : string -> option (gmap string setting).
Variable GetDB : Models.conn_args -> result DB.
Variable GetRedisClient : redis_args -> result RedisClient.
Variable NewV4 : string.

(** When the configuration file and the environment say nothing of the
    four pool sizes, and the configuration handed in has no default for
    parsers, fetchers and builders, the configuration [Configure] loads
    makes [Start] launch the status updater, one producer and the reader,
    and no parser, fetcher or builder: only the producers have a default. *)
Theorem Start_pools_by_default (path : string) (cfg : t) (file : gmap string setting) :
  ReadInConfig path = Some file ->
  (forall key, key ∈ pool_keys -> file !! key = None) ->
  (forall key, key ∈ ["workers.modules.parsers"; "workers.modules.fetchers";
                      "workers.modules.builders"] -> defaults cfg !! key = None) ->
  exists loaded,
    loadConfiguration ReadInConfig path (setConfigurationDefaults cfg) = Ok loaded /\
    Start_goroutines loaded = [StatusUpdater; ProducerWorker; Reader].
Proof.
  intros Hread Hfile Hdefaults.
  unfold loadConfiguration. rewrite Hread. eexists. split; [reflexivity|].
  unfold Start_goroutines, GetInt, find, setConfigurationDefaults. cbn [provided defaults].
  rewrite !defaults_set_defaults.
  repeat match goal with
  | |- context [file !! ToLower ?k] =>
      let k' := eval vm_compute in (ToLower k) in
      change (ToLower k) with k';
      rewrite (Hfile k') by (repeat first [apply list_elem_of_here | apply list_elem_of_further])
  end.
  repeat match goal with
  | |- context [registered worker_defaults ?k] =>
      let r := eval vm_compute in (registered worker_defaults k) in
      change (registered worker_defaults k) with r
  end.
  rewrite !Hdefaults by (repeat first [apply list_elem_of_here | apply list_elem_of_further]).
  reflexivity.
Qed.

(** [GetBatchPGWorker] goes as far as the first failure and no further.
    With an empty configuration path it refuses with [Invalid worker
    config] and does nothing to the outside. Otherwise it reads the
    configuration first; when that fails it panics with the path in the
    text and contacts neither Postgres nor Redis. Redis is contacted only
    after Postgres has given a handle. When it returns a worker, the
    three actions happened in this order, each succeeded, the worker
    holds the two handles and the channels of the loaded configuration,
    and what the file provides has replaced what the configuration
    handed in provided. *)
Theorem GetBatchPGWorker_stops_at_first_failure (path : string) (config : option t) :
  let run := GetBatchPGWorker ReadInConfig GetDB GetRedisClient NewV4 path config in
  (path = "" -> run = (Refused "Invalid worker config", [])) /\
  (path <> "" -> ReadInConfig path = None ->
   run = (Panicked ("Could not load configuration file from: " +:+ path), [ReadConfig path])) /\
  (forall args, ConnectRedis args ∈ run.2 ->
   exists pg db, run.2 = [ReadConfig path; ConnectPostgres pg; ConnectRedis args] /\
                 GetDB pg = Ok db) /\
  (forall w, run.1 = Configured w ->
   path <> "" /\
   ReadInConfig path = Some (provided (cw_Config w)) /\
   defaults (cw_Config w) = defaults (setConfigurationDefaults (default New config)) /\
   createChannels (cw_Config w) = Some (cw_channels w) /\
   GetDB (postgres_args (cw_Config w)) = Ok (cw_Db w) /\
   GetRedisClient (redis_args_of (cw_Config w)) = Ok (cw_RedisClient w) /\
   cw_ID w = NewV4 /\
   run.2 = [ReadConfig path; ConnectPostgres (postgres_args (cw_Config w));
            ConnectRedis (redis_args_of (cw_Config w))]).
Proof.
  unfold GetBatchPGWorker, Configure, loadConfiguration.
  destruct (decide (path = "")) as [Hempty|Hpath]; cbn zeta.
  { repeat split; try done. intros args Hin. cbn in Hin. inversion Hin. }
  destruct (ReadInConfig path) as [file|] eqn:Hread.
  2:{ repeat split; try done. intros args Hin. cbn in Hin.
      apply list_elem_of_singleton in Hin. discriminate. }
  set (loaded := mk file _).
  destruct (createChannels loaded) as [chans|] eqn:Hchans.
  2:{ repeat split; try done. intros args Hin. cbn in Hin.
      apply list_elem_of_singleton in Hin. discriminate. }
  destruct (GetDB (postgres_args loaded)) as [db|e] eqn:Hdb.
  2:{ repeat split; try done. intros args Hin. cbn in Hin.
      apply elem_of_cons in Hin as [Hin|Hin]; [discriminate|].
      apply list_elem_of_singleton in Hin. discriminate. }
  assert (Hredis : forall (o : outcome DB RedisClient) args,
    ConnectRedis args ∈ [ReadConfig path; ConnectPostgres (postgres_args loaded);
                         ConnectRedis (redis_args_of loaded)] ->
    exists pg db0, [ReadConfig path; ConnectPostgres (postgres_args loaded);
                    ConnectRedis (redis_args_of loaded)] =
                   [ReadConfig path; ConnectPostgres pg; ConnectRedis args] /\ GetDB pg = Ok db0).
  { intros _ args Hin.
    apply elem_of_cons in Hin as [Hin|Hin]; [discriminate|].
    apply elem_of_cons in Hin as [Hin|Hin]; [discriminate|].
    apply list_elem_of_singleton in Hin. injection Hin as ->.
    exists (postgres_args loaded), db. split; [reflexivity | exact Hdb]. }
  destruct (GetRedisClient (redis_args_of loaded)) as [cli|e] eqn:Hcli; cbn [fst snd].
  - split; [done|]. split; [done|]. split; [apply (Hredis (Refused ""))|].
    intros w Hw. injection Hw as <-. cbn [cw_Config cw_channels cw_Db cw_RedisClient cw_ID].
    repeat split; try done.
  - split; [done|]. split; [done|]. split; [apply (Hredis (Refused ""))|].
    intros w Hw. discriminate.
Qed.

End Outside.

(** A configuration file that defines nothing. *)
Lemma Start_pools_by_default_witness :
  exists loaded,
    loadConfiguration empty_file "config/test.yaml" (setConfigurationDefaults New) = Ok loaded /\
    Start_goroutines loaded = [StatusUpdater; ProducerWorker; Reader].
Proof.
  apply (Start_pools_by_default empty_file "config/test.yaml" New ∅).
  - reflexivity.
  - intros key _. apply lookup_empty.
  - intros key _. apply lookup_empty.
Defined.

End WorkerConfigFacts.

(** ** The Zookeeper client *)

Module ZookeeperFacts.
Import Viper Zookeeper.

Section Conn.

Variable Children : string -> result (list string).
Variable Get : string -> result string.
Variable json_Unmarshal : string -> KafkaInfo -> KafkaInfo * option string.

Lemma range_ids_ok ids : forall brokers infos,
  Forall2 (fun id info => Get (broker_path id) = Ok info) ids infos ->
  range_ids Get json_Unmarshal ids brokers =
  Ok (brokers ++ (address_of json_Unmarshal <$> infos)).
Proof.
  induction ids as [|id rest IH]; intros brokers infos Hall.
  - inversion Hall; subst. cbn. rewrite app_nil_r. reflexivity.
  - inversion Hall as [|? info ? infos' Hget Hrest]; subst. cbn [range_ids].
    rewrite Hget. rewrite (IH _ infos' Hrest). rewrite <- app_assoc. reflexivity.
Qed.

Lemma range_ids_err ids : forall brokers before id after infos e,
  ids = before ++ id :: after ->
  Forall2 (fun id info => Get (broker_path id) = Ok info) before infos ->
  Get (broker_path id) = Err e ->
  range_ids Get json_Unmarshal ids brokers = Err e.
Proof.
  induction ids as [|id0 rest IH]; intros brokers before id after infos e Hids Hall Hget.
  - destruct before; discriminate.
  - destruct before as [|b before'].
    + injection Hids as -> ->. cbn [range_ids]. rewrite Hget. reflexivity.
    + injection Hids as -> ->. inversion Hall as [|? info ? infos' Hb Hrest]; subst.
      cbn [range_ids]. rewrite Hb. eapply IH; [reflexivity | exact Hrest | exact Hget].
Qed.

(** The nodes of [ids] read in order up to the first failure. *)
Lemma range_ids_cases ids :
  (exists infos, Forall2 (fun id info => Get (broker_path id) = Ok info) ids infos) \/
  (exists before id after infos e,
     ids = before ++ id :: after /\
     Forall2 (fun id info => Get (broker_path id) = Ok info) before infos /\
     Get (broker_path id) = Err e).
Proof.
  induction ids as [|id rest IH].
  - left. exists []. constructor.
  - destruct (Get (broker_path id)) as [info|e] eqn:Hget.
    + destruct IH as [[infos Hall]|(before & id' & after & infos & e & -> & Hall & Herr)].
      * left. exists (info :: infos). constructor; assumption.
      * right. exists (id :: before), id', after, (info :: infos), e.
        split; [reflexivity|]. split; [constructor; assumption | exact Herr].
    + right. exists [], id, rest, [], e. split; [reflexivity|]. split; [constructor | exact Hget].
Qed.

(** [GetKafkaBrokers] is all or nothing. It returns a list exactly when
    the children of [/brokers/ids] and the node of every child could be
    read, and the list then has one address per child, in the order of
    the children, made of whatever [json.Unmarshal] left in the target:
    the error of [json.Unmarshal] plays no part. It returns an error
    exactly when the children could not be read, or when the node of
    some child could not while those of the children before it could;
    the error is that of the read that failed, and the addresses
    gathered so far are dropped. *)
Theorem GetKafkaBrokers_all_or_nothing :
  match GetKafkaBrokers Children Get json_Unmarshal with
  | Ok brokers =>
      exists ids infos,
        Children "/brokers/ids" = Ok ids /\
        Forall2 (fun id info => Get (broker_path id) = Ok info) ids infos /\
        brokers = address_of json_Unmarshal <$> infos
  | Err e =>
      Children "/brokers/ids" = Err e \/
      exists ids before id after infos,
        Children "/brokers/ids" = Ok ids /\
        ids = before ++ id :: after /\
        Forall2 (fun id info => Get (broker_path id) = Ok info) before infos /\
        Get (broker_path id) = Err e
  end.
Proof.
  unfold GetKafkaBrokers. destruct (Children "/brokers/ids") as [ids|e]; [|left; reflexivity].
  destruct (range_ids_cases ids) as [[infos Hall]|(before & id & after & infos & e & Hids & Hall & Herr)].
  - rewrite (range_ids_ok ids [] infos Hall). cbn [app]. exists ids, infos. auto.
  - rewrite (range_ids_err ids [] before id after infos e Hids Hall Herr).
    right. exists ids, before, id, after, infos. auto.
Qed.

End Conn.

Section Zk.

Variable Conn : Type.
Variable ReadInConfig : string -> result (gmap string setting).
Variable zk_Connect : list string -> result Conn.

(** [NewZookeeperClient] connects at most once, and only after the
    configuration was read: with an empty path, or a configuration that
    cannot be read, it returns the error without a connection attempt.
    Otherwise it makes one attempt, to the hosts the configuration lists
    under [workers.zookeeper.hosts], or to [localhost:9930] when the
    configuration does not define the key, and returns the client
    exactly when that attempt succeeds. *)
Theorem NewZookeeperClient_connects_once (configPath : string) :
  let run := NewZookeeperClient ReadInConfig zk_Connect configPath in
  (configPath = "" ->
   run = (Err "No configPath passed to configure ZookeeperClient", [])) /\
  (forall e, configPath <> "" -> ReadInConfig configPath = Err e ->
   run = (Err ("Fatal error config file: " +:+ e +:+ " " +:+ String "010"%char ""), [])) /\
  (forall file, configPath <> "" -> ReadInConfig configPath = Ok file ->
   forall hosts,
     file !! "workers.zookeeper.hosts" = Some (SStrings hosts) \/
     file !! "workers.zookeeper.hosts" = None /\ hosts = ["localhost:9930"] ->
     run.2 = [hosts] /\
     match zk_Connect hosts with
     | Ok conn => exists client, run.1 = Ok client /\ zkConn client = conn /\
                                 ConfigPath client = configPath
     | Err e => run.1 = Err e
     end).
Proof.
  unfold NewZookeeperClient, LoadConfiguration.
  destruct (decide (configPath = "")) as [Hempty|Hpath]; cbn zeta.
  { repeat split; try done. }
  split; [done|]. split.
  - intros e _ Hread. rewrite Hread. reflexivity.
  - intros file _ Hread hosts Hhosts. rewrite Hread.
    assert (Hget : GetStringSlice "workers.zookeeper.hosts"
                     (LoadDefaults (mk file (defaults New))) = hosts).
    { unfold GetStringSlice, find, LoadDefaults, SetDefault. cbn [provided defaults].
      change (ToLower "workers.zookeeper.hosts") with "workers.zookeeper.hosts".
      destruct Hhosts as [->|[-> ->]]; [reflexivity|].
      rewrite lookup_insert_eq. reflexivity. }
    rewrite Hget. destruct (zk_Connect hosts) as [conn|e]; cbn [fst snd].
    + split; [reflexivity|]. eexists. split; [reflexivity|]. split; reflexivity.
    + split; reflexivity.
Qed.

End Zk.

End ZookeeperFacts.
